(** * Object store adapter (backend/src/apiserver/storage/object_store.go)

    A shallow embedding of [MinioObjectStore] and of the library calls it
    makes ([path.Join], [regexp.ReplaceAllString], the Minio client
    interface, the YAML codec), followed by the properties of the adapter.

    Go strings and byte slices are sequences of 8-bit bytes: a Go [string]
    is a [string] here (one [ascii] per byte) and a [[]byte] is a
    [list byte]; the conversions [string(b)] and [[]byte(s)] are
    [string_of_list_byte] and [list_byte_of_string]. *)

From Stdlib Require Import Strings.String Strings.Ascii Strings.Byte.
From Stdlib Require Import List ZArith NArith Bool Arith Lia.
Import ListNotations.

Local Open Scope list_scope.
Local Open Scope string_scope.

(* ================================================================== *)
(** ** Strings *)

Module Str.

(** [s[:n]] *)
Fixpoint take (n : nat) (s : string) : string :=
  match n, s with
  | S n', String c s' => String c (take n' s')
  | _, _ => ""
  end.

(** The last byte of a string, if any. *)
Fixpoint last (s : string) : option ascii :=
  match s with
  | "" => None
  | String c "" => Some c
  | String _ s' => last s'
  end.


End Str.

(* ================================================================== *)
(** ** Package [path]: [Clean] and [Join]

    [GetPipelineKey] is one call of [path.Join]; the two functions of Go's
    standard library are transcribed here.  [Clean] writes into a
    [lazybuf]; its observable content is the first [w] bytes of the
    buffer, which is the string [out] below, with [out.w = length out]. *)

Module path.

Definition slash : ascii := "/"%char.
Definition dot : ascii := "."%char.

(** The element copy of the default case:
    [for ; r < n && path[r] != '/'; r++ { out.append(path[r]) }],
    returning the bytes copied and the rest of the path. *)
Fixpoint copyElement (rest : string) : string * string :=
  match rest with
  | "" => ("", "")
  | String c rest' =>
      if Ascii.eqb c slash then ("", rest)
      else let '(e, r) := copyElement rest' in (String c e, r)
  end.

(** [for out.w > dotdot && out.index(out.w) != '/' { out.w-- }],
    started at [w]; the result is the final [out.w]. *)
Fixpoint backtrack (out : string) (dotdot : nat) (w : nat) : nat :=
  match w with
  | 0 => 0
  | S w' =>
      if (dotdot <? w)%nat && negb (match String.get w out with
                                | Some c => Ascii.eqb c slash
                                | None => false
                                end)
      then backtrack out dotdot w'
      else w
  end.

(** [r+1 == n || path[r+1] == '/'], on the rest of the path after
    [path[r]]. *)
Definition endsElement (rest : string) : bool :=
  match rest with
  | "" => true
  | String c _ => Ascii.eqb c slash
  end.

(** [path[r] == '.' && path[r+1] == '.' && (r+2 == n || path[r+2] == '/')],
    where [r1] is [path[r+1:]] (non-empty when this case is reached). *)
Definition isDotDot (c : ascii) (r1 : string) : bool :=
  match r1 with
  | "" => false
  | String c' r2 => Ascii.eqb c dot && Ascii.eqb c' dot && endsElement r2
  end.

Definition tail (s : string) : string :=
  match s with
  | "" => ""
  | String _ s' => s'
  end.

(** [if rooted && out.w != 1 || !rooted && out.w != 0 { out.append('/') }] *)
Definition addSlash (rooted : bool) (out : string) : string :=
  if (rooted && negb (String.length out =? 1)%nat)
     || (negb rooted && negb (String.length out =? 0)%nat)
  then out ++ "/" else out.

(** The main loop [for r < n { switch ... }] of [Clean]; [rest] is
    [path[r:]].  Every iteration consumes at least one byte, so
    [length rest] iterations are enough ([cleanLoop_fuel]). *)
Fixpoint cleanLoop (fuel : nat) (rooted : bool) (rest : string)
         (out : string) (dotdot : nat) : string :=
  match fuel with
  | 0 => out
  | S fuel' =>
      match rest with
      | "" => out
      | String c r1 =>
          if Ascii.eqb c slash then
            (* empty path element *)
            cleanLoop fuel' rooted r1 out dotdot
          else if Ascii.eqb c dot && endsElement r1 then
            (* . element *)
            cleanLoop fuel' rooted r1 out dotdot
          else if isDotDot c r1 then
            (* .. element: remove to last / *)
            let r2 := tail r1 in
            if (dotdot <? String.length out)%nat then
              (* can backtrack *)
              let w := backtrack out dotdot (String.length out - 1) in
              cleanLoop fuel' rooted r2 (Str.take w out) dotdot
            else if negb rooted then
              (* cannot backtrack, but not rooted, so append .. element *)
              let out1 := if (0 <? String.length out)%nat then out ++ "/" else out in
              let out2 := out1 ++ ".." in
              cleanLoop fuel' rooted r2 out2 (String.length out2)
            else cleanLoop fuel' rooted r2 out dotdot
          else
            (* real path element: add slash if needed, copy element *)
            let '(e, r') := copyElement rest in
            cleanLoop fuel' rooted r' (addSlash rooted out ++ e) dotdot
      end
  end.

(** [func Clean(path string) string] *)
Definition Clean (path : string) : string :=
  match path with
  | "" => "."
  | String c r1 =>
      let rooted := Ascii.eqb c slash in
      let out :=
        if rooted
        then cleanLoop (String.length path) rooted r1 "/" 1
        else cleanLoop (String.length path) rooted path "" 0 in
      (* Turn empty string into "." *)
      if (String.length out =? 0)%nat then "." else out
  end.

(** The loop of [Join] that fills [buf]:
    [if len(buf) > 0 || e != "" { if len(buf) > 0 { buf = append(buf, '/') };
     buf = append(buf, e...) }]. *)
Fixpoint joinBuf (buf : string) (elem : list string) : string :=
  match elem with
  | [] => buf
  | e :: elem' =>
      if (0 <? String.length buf)%nat || negb (String.eqb e "") then
        let buf1 := if (0 <? String.length buf)%nat then buf ++ "/" else buf in
        joinBuf (buf1 ++ e) elem'
      else joinBuf buf elem'
  end.

(** [func Join(elem ...string) string] *)
Definition Join (elem : list string) : string :=
  let size := fold_left (fun n e => n + String.length e) elem 0 in
  if (size =? 0)%nat then ""
  else Clean (joinBuf "" elem).

End path.

(** The tables of Go's tests of [path.Clean] and [path.Join]. *)
Definition cleantests : list (string * string) :=
  [ (* Already clean *)
    ("", "."); ("abc", "abc"); ("abc/def", "abc/def"); ("a/b/c", "a/b/c");
    (".", "."); ("..", ".."); ("../..", "../.."); ("../../abc", "../../abc");
    ("/abc", "/abc"); ("/", "/");
    (* Remove trailing slash *)
    ("abc/", "abc"); ("abc/def/", "abc/def"); ("a/b/c/", "a/b/c"); ("./", ".");
    ("../", ".."); ("../../", "../.."); ("/abc/", "/abc");
    (* Remove doubled slash *)
    ("abc//def//ghi", "abc/def/ghi"); ("//abc", "/abc"); ("///abc", "/abc");
    ("//abc//", "/abc"); ("abc//", "abc");
    (* Remove . elements *)
    ("abc/./def", "abc/def"); ("/./abc/def", "/abc/def"); ("abc/.", "abc");
    (* Remove .. elements *)
    ("abc/def/ghi/../jkl", "abc/def/jkl"); ("abc/def/../ghi/../jkl", "abc/jkl");
    ("abc/def/..", "abc"); ("abc/def/../..", "."); ("/abc/def/../..", "/");
    ("abc/def/../../..", ".."); ("/abc/def/../../..", "/");
    ("abc/def/../../../ghi/jkl/../../../mno", "../../mno");
    (* Combinations *)
    ("abc/./../def", "def"); ("abc//./../def", "def");
    ("abc/../../././../def", "../../def") ].

Definition jointests : list (list string * string) :=
  [ ([], ""); ([""], ""); (["a"], "a"); (["a"; "b"], "a/b"); (["a"; ""], "a");
    ([""; "b"], "b"); (["/"; "a"], "/a"); (["/"; ""], "/"); (["a/"; "b"], "a/b");
    (["a/"; ""], "a"); ([""; ""], "") ].


(* ================================================================== *)
(** ** Package [regexp]: leftmost-first matching and [ReplaceAllString]

    [GetFile] compiles one pattern, [\w+;chunk-signature=\w+], and calls
    [ReplaceAllString] with it.  The fragment of the syntax that the
    pattern uses is embedded: the Perl class [\w] (ASCII only in Go:
    [[0-9A-Za-z_]]), literal bytes, concatenation and the greedy [+].

    Go matches runes of the UTF-8 decoding; every atom of this fragment
    matches a single ASCII byte, an ASCII byte is never part of a longer
    encoding, and a byte that is not ASCII is matched by no atom, so
    matching byte by byte finds the same matches. *)

Module regexp.

Inductive Regexp : Type :=
| Word                       (* \w *)
| Lit (c : ascii)            (* a literal byte *)
| Cat (r1 r2 : Regexp)       (* r1 r2 *)
| Plus (r : Regexp).         (* r+ , greedy *)

(** [\w]: [0-9A-Za-z_]. *)
Definition isWordChar (c : ascii) : bool :=
  let n := nat_of_ascii c in
  ((48 <=? n) && (n <=? 57) || (65 <=? n) && (n <=? 90)
   || (97 <=? n) && (n <=? 122) || (n =? 95))%nat.

(** The literal [c l] as a regular expression. *)
Fixpoint literal (c : ascii) (l : string) : Regexp :=
  match l with
  | "" => Lit c
  | String c' l' => Cat (Lit c) (literal c' l')
  end.

(** The strings that an expression matches. *)
Inductive Matches : Regexp -> string -> Prop :=
| MatchesWord (c : ascii) :
    isWordChar c = true -> Matches Word (String c "")
| MatchesLit (c : ascii) : Matches (Lit c) (String c "")
| MatchesCat (r1 r2 : Regexp) (s1 s2 : string) :
    Matches r1 s1 -> Matches r2 s2 -> Matches (Cat r1 r2) (s1 ++ s2)
| MatchesPlusOne (r : Regexp) (s : string) :
    Matches r s -> Matches (Plus r) s
| MatchesPlusMore (r : Regexp) (s1 s2 : string) :
    Matches r s1 -> Matches (Plus r) s2 -> Matches (Plus r) (s1 ++ s2).

(** Iteration of a greedy [+]: after one match of the body that leaves
    [s'], another iteration is preferred to stopping at [s'].  [step]
    lists what the body leaves, in order of preference. *)
Definition plusIter (step : string -> list string)
  : nat -> string -> list string :=
  fix iter (n : nat) (s : string) {struct n} : list string :=
    match n with
    | 0 => []
    | S n' =>
        flat_map
          (fun s' =>
             ((if (String.length s' <? String.length s)%nat
               then iter n' s' else []) ++ [s'])%list)
          (step s)
    end.

(** [ends r fuel s]: what is left of [s] after each way of matching [r]
    at the head of [s], in the order in which a backtracking matcher
    tries them (the first one is the leftmost-first match at this
    position).  [fuel] bounds the iterations of [+]; [S (length s)] is
    enough, since every iteration consumes a byte. *)
Fixpoint ends (r : Regexp) (fuel : nat) (s : string) {struct r} : list string :=
  match r with
  | Word =>
      match s with
      | String c s' => if isWordChar c then [s'] else []
      | "" => []
      end
  | Lit a =>
      match s with
      | String c s' => if Ascii.eqb c a then [s'] else []
      | "" => []
      end
  | Cat r1 r2 => flat_map (ends r2 fuel) (ends r1 fuel s)
  | Plus r1 => plusIter (ends r1 fuel) fuel s
  end.

(** The leftmost-first match of [r] in [src]: the text before the
    match ([src[:a[0]]]) and the text after it ([src[a[1]:]]). *)
Fixpoint find (r : Regexp) (src : string) : option (string * string) :=
  match ends r (S (String.length src)) src with
  | after :: _ => Some ("", after)
  | [] =>
      match src with
      | "" => None
      | String c src' =>
          match find r src' with
          | Some (before, after) => Some (String c before, after)
          | None => None
          end
      end
  end.

(** The loop of [replaceAll]: copy the unmatched bytes before the
    match, append the replacement, go on after the match; at the end
    copy the unmatched bytes after the last match.  No expression of
    this fragment matches the empty string ([ends_shorter]), so the
    search always resumes at the end of the match and the steps that Go
    takes after an empty match are never reached. *)
Fixpoint replaceAll (fuel : nat) (re : Regexp) (src repl : string) : string :=
  match fuel with
  | 0 => src
  | S fuel' =>
      match find re src with
      | None => src
      | Some (before, after) =>
          before ++ repl ++ replaceAll fuel' re after repl
      end
  end.

(** [func (re *Regexp) ReplaceAllString(src, repl string) string], for a
    replacement without [$] (the adapter passes the empty string). *)
Definition ReplaceAllString (re : Regexp) (src repl : string) : string :=
  replaceAll (S (String.length src)) re src repl.

End regexp.

(** The literal in the middle of the pattern. *)
Definition chunkSignatureLiteral : string := ";chunk-signature=".

(** [regexp.MustCompile(`\w+;chunk-signature=\w+`)] *)
Definition chunkSignatureRe : regexp.Regexp :=
  regexp.Cat (regexp.Plus regexp.Word)
    (regexp.Cat (regexp.literal ";" "chunk-signature=")
                (regexp.Plus regexp.Word)).

(* ================================================================== *)
(** ** Errors (package [util]) *)

Definition bytes : Type := list byte.

Module util.

(** Modelled from the spec: package [util] (backend/src/common/util) is
    not among the sources; the spec says of its errors only that each
    carries the affected file path and the underlying cause, and that
    wrapping keeps the kind.  [NewInternalServerError] and [Wrap] are
    therefore kept as free constructors that record the arguments the
    adapter passes, so nothing is assumed about what they compute.
    [ExternalError] stands for the errors of the client and of the
    codec.  A format argument is a string ([filePath]) or the text of
    an error ([err.Error()]). *)
Inductive error : Type :=
| ExternalError (msg : string)
| NewInternalServerError (err : error) (internalMessageFormat : string)
                         (a : list fmtArg)
| Wrap (err : error) (message : string)
with fmtArg : Type :=
| ArgString (s : string)
| ArgErrorText (e : error).

End util.
Import util.

(** Modelled from the spec: the error taxonomy of the spec.  The adapter
    builds all its errors with [util.NewInternalServerError]; the five
    kinds of the spec are its five call sites, told apart by the message
    format. *)
Inductive ErrorKind : Type :=
| StorageWriteError | StorageReadError | StorageDeleteError
| SerializationError | DeserializationError.

Definition kindOfFormat (format : string) : option ErrorKind :=
  if String.eqb format "Failed to store file %v" then Some StorageWriteError
  else if String.eqb format "Failed to get file %v" then Some StorageReadError
  else if String.eqb format "Failed to delete file %v" then Some StorageDeleteError
  else if String.eqb format "Failed to marshal file %v: %v" then Some SerializationError
  else if String.eqb format "Failed to unmarshal file %v: %v" then Some DeserializationError
  else None.

(** Modelled from the spec: the kind, the file path and the underlying
    cause that an error carries; wrapping keeps all three. *)
Fixpoint errorKind (e : error) : option ErrorKind :=
  match e with
  | ExternalError _ => None
  | NewInternalServerError _ format _ => kindOfFormat format
  | Wrap e' _ => errorKind e'
  end.

Fixpoint errorPath (e : error) : option string :=
  match e with
  | NewInternalServerError _ _ (ArgString p :: _) => Some p
  | Wrap e' _ => errorPath e'
  | _ => None
  end.

Fixpoint errorCause (e : error) : option error :=
  match e with
  | ExternalError _ => None
  | NewInternalServerError cause _ _ => Some cause
  | Wrap e' _ => errorCause e'
  end.

(* ================================================================== *)
(** ** The Minio client and the YAML codec *)

(** [context.Context]: handed on to the client untouched. *)
Inductive Context : Type := ctx (id : nat).

Module minio.

(** [minio.PutObjectOptions{ContentType: ...}] *)
Record PutObjectOptions : Type := { ContentType : string }.

(** [minio.GetObjectOptions{}] *)
Inductive GetObjectOptions : Type := GetObjectOptions0.

(** What reading the object returned by [GetObject] delivers: bytes,
    and then the end of the stream or an error. *)
Record Object : Type := { delivered : bytes; failure : option error }.

End minio.

(** [MinioClientInterface], over the type [S] of the states of the store
    behind the client. *)
Record MinioClientInterface (S : Type) : Type := {
  PutObject : Context -> string -> string -> bytes -> Z ->
              minio.PutObjectOptions -> S -> option error * S;
  GetObject : Context -> string -> string -> minio.GetObjectOptions ->
              S -> (minio.Object + error) * S;
  DeleteObject : Context -> string -> string -> S -> option error * S
}.
Arguments PutObject {S}.
Arguments GetObject {S}.
Arguments DeleteObject {S}.

(** Package [sigs.k8s.io/yaml], over the type [V] of the values that are
    marshalled.  [Unmarshal] is given the content of the target and
    returns its content afterwards. *)
Record YamlCodec (V : Type) : Type := {
  Marshal : V -> bytes + error;
  Unmarshal : bytes -> V -> V * option error
}.
Arguments Marshal {V}.
Arguments Unmarshal {V}.

(** [buf.ReadFrom(reader); buf.Bytes()]: everything the reader delivers;
    the count and the error that [ReadFrom] returns are dropped. *)
Definition ReadFrom (reader : minio.Object) : bytes := minio.delivered reader.

Definition multipartDefaultSize : Z := (-1)%Z.

(** [len(file)] is an [int], which is at most 64 bits wide: every value
    of it is an [int64] and the conversion [int64(len(file))] neither
    truncates nor wraps. *)
Definition len (file : bytes) : Z := Z.of_nat (List.length file).
Definition int64 (n : Z) : Z := n.

(** [type MinioObjectStore struct] *)
Record MinioObjectStore (S : Type) : Type := {
  minioClient : MinioClientInterface S;
  bucketName : string;
  baseFolder : string;
  disableMultipart : bool
}.
Arguments minioClient {S}.
Arguments bucketName {S}.
Arguments baseFolder {S}.
Arguments disableMultipart {S}.

(** [func NewMinioObjectStore] *)
Definition NewMinioObjectStore {S : Type} (minioClient : MinioClientInterface S)
    (bucketName baseFolder : string) (disableMultipart : bool)
  : MinioObjectStore S :=
  {| minioClient := minioClient; bucketName := bucketName;
     baseFolder := baseFolder; disableMultipart := disableMultipart |}.

(* ================================================================== *)
(** ** The adapter

    A method of [*MinioObjectStore] runs in a world made of the receiver
    [m], the state of the store behind the client, and the trace of the
    calls made so far to the client and to the codec. *)

Inductive Event (V : Type) : Type :=
| EvPutObject (c : Context) (bucketName objectName : string) (data : bytes)
              (objectSize : Z) (opts : minio.PutObjectOptions)
| EvGetObject (c : Context) (bucketName objectName : string)
              (opts : minio.GetObjectOptions)
| EvDeleteObject (c : Context) (bucketName objectName : string)
| EvMarshal (o : V)
| EvUnmarshal (data : bytes) (o : V).
Arguments EvPutObject {V}.
Arguments EvGetObject {V}.
Arguments EvDeleteObject {V}.
Arguments EvMarshal {V}.
Arguments EvUnmarshal {V}.

(** The calls to the client among the events. *)
Definition isStoreCall {V : Type} (e : Event V) : bool :=
  match e with
  | EvPutObject _ _ _ _ _ _ | EvGetObject _ _ _ _ | EvDeleteObject _ _ _ => true
  | EvMarshal _ | EvUnmarshal _ _ => false
  end.

Record World (S V : Type) : Type := {
  self : MinioObjectStore S;
  store : S;
  trace : list (Event V)
}.
Arguments self {S V}.
Arguments store {S V}.
Arguments trace {S V}.

Definition storeCalls {S V : Type} (w : World S V) : list (Event V) :=
  filter isStoreCall (trace w).

(** The world right after [NewMinioObjectStore]. *)
Definition newWorld {S V : Type} (m : MinioObjectStore S) (s : S) : World S V :=
  {| self := m; store := s; trace := [] |}.

Definition M (S V A : Type) : Type := World S V -> A * World S V.

Definition ret {S V A : Type} (a : A) : M S V A := fun w => (a, w).

Definition bind {S V A B : Type} (c : M S V A) (k : A -> M S V B) : M S V B :=
  fun w => let '(a, w') := c w in k a w'.

Notation "x <- c ;; k" := (bind c (fun x => k))
  (at level 61, c at next level, right associativity).

Section Adapter.

Context {S V : Type}.
Variable yaml : YamlCodec V.

Local Abbreviation M := (M S V).

(** Reading the receiver. *)
Definition getSelf : M (MinioObjectStore S) := fun w => (self w, w).

(** A call through the client interface: the store changes as the
    client says and the call is recorded. *)
Definition clientCall {A : Type} (e : Event V) (f : S -> A * S) : M A :=
  fun w =>
    let '(a, s') := f (store w) in
    (a, {| self := self w; store := s'; trace := (trace w ++ [e])%list |}).

(** A call of the codec, which has no state. *)
Definition codecCall {A : Type} (e : Event V) (a : A) : M A :=
  fun w => (a, {| self := self w; store := store w;
                  trace := (trace w ++ [e])%list |}).

(** [func (m *MinioObjectStore) GetPipelineKey(pipelineID string) string] *)
Definition GetPipelineKey (pipelineID : string) : M string :=
  m <- getSelf ;;
  ret (path.Join [baseFolder m; pipelineID]).

(** [func (m *MinioObjectStore) AddFile(ctx, file []byte, filePath string) error] *)
Definition AddFile (c : Context) (file : bytes) (filePath : string)
  : M (option error) :=
  m <- getSelf ;;
  let parts := if disableMultipart m then int64 (len file)
               else multipartDefaultSize in
  let opts := {| minio.ContentType := "application/octet-stream" |} in
  err <- clientCall (EvPutObject c (bucketName m) filePath file parts opts)
              (PutObject (minioClient m) c (bucketName m) filePath file
                         parts opts) ;;
  match err with
  | Some err =>
      ret (Some (NewInternalServerError err "Failed to store file %v"
                                        [ArgString filePath]))
  | None => ret None
  end.

(** [func (m *MinioObjectStore) DeleteFile(ctx, filePath string) error] *)
Definition DeleteFile (c : Context) (filePath : string) : M (option error) :=
  m <- getSelf ;;
  err <- clientCall (EvDeleteObject c (bucketName m) filePath)
              (DeleteObject (minioClient m) c (bucketName m) filePath) ;;
  match err with
  | Some err =>
      ret (Some (NewInternalServerError err "Failed to delete file %v"
                                        [ArgString filePath]))
  | None => ret None
  end.

(** [func (m *MinioObjectStore) GetFile(ctx, filePath string) ([]byte, error)] *)
Definition GetFile (c : Context) (filePath : string) : M (bytes + error) :=
  m <- getSelf ;;
  r <- clientCall (EvGetObject c (bucketName m) filePath minio.GetObjectOptions0)
            (GetObject (minioClient m) c (bucketName m) filePath
                       minio.GetObjectOptions0) ;;
  match r with
  | inr err =>
      ret (inr (NewInternalServerError err "Failed to get file %v"
                                       [ArgString filePath]))
  | inl reader =>
      let bytes := ReadFrom reader in
      (* Remove single part signature if exists *)
      let bytes :=
        if disableMultipart m then
          list_byte_of_string
            (regexp.ReplaceAllString chunkSignatureRe
                                     (string_of_list_byte bytes) "")
        else bytes in
      ret (inl bytes)
  end.

(** [func (m *MinioObjectStore) AddAsYamlFile(ctx, o interface{}, filePath string) error] *)
Definition AddAsYamlFile (c : Context) (o : V) (filePath : string)
  : M (option error) :=
  r <- codecCall (EvMarshal o) (Marshal yaml o) ;;
  match r with
  | inr err =>
      ret (Some (NewInternalServerError err "Failed to marshal file %v: %v"
                   [ArgString filePath; ArgErrorText err]))
  | inl bytes =>
      err <- AddFile c bytes filePath ;;
      match err with
      | Some err => ret (Some (Wrap err "Failed to add a yaml file"))
      | None => ret None
      end
  end.

(** [func (m *MinioObjectStore) GetFromYamlFile(ctx, o interface{}, filePath string) error];
    [o] is the content of the caller's target before the call, and the
    first component of the result is its content afterwards. *)
Definition GetFromYamlFile (c : Context) (o : V) (filePath : string)
  : M (V * option error) :=
  r <- GetFile c filePath ;;
  match r with
  | inr err => ret (o, Some (Wrap err "Failed to read from a yaml file"))
  | inl bytes =>
      r' <- codecCall (EvUnmarshal bytes o) (Unmarshal yaml bytes o) ;;
      let '(o', err) := r' in
      match err with
      | Some err =>
          ret (o', Some (NewInternalServerError err
                           "Failed to unmarshal file %v: %v"
                           [ArgString filePath; ArgErrorText err]))
      | None => ret (o', None)
      end
  end.

End Adapter.

(** The events that [AddFile] and [GetFile] record, and the world after
    an event and a new state of the store. *)
Definition putEvent {S V : Type} (m : MinioObjectStore S) (c : Context)
    (file : bytes) (filePath : string) : Event V :=
  EvPutObject c (bucketName m) filePath file
    (if disableMultipart m then Z.of_nat (List.length file) else (-1)%Z)
    {| minio.ContentType := "application/octet-stream" |}.

Definition getEvent {S V : Type} (m : MinioObjectStore S) (c : Context)
    (filePath : string) : Event V :=
  EvGetObject c (bucketName m) filePath minio.GetObjectOptions0.

Definition after {S V : Type} (w : World S V) (e : Event V) (s : S) : World S V :=
  {| self := self w; store := s; trace := (trace w ++ [e])%list |}.

(* ================================================================== *)
(** ** The chunk-signature pattern, as the specification words it *)

(** A run of one or more word characters. *)
Fixpoint allWord (s : string) : bool :=
  match s with
  | "" => true
  | String c s' => regexp.isWordChar c && allWord s'
  end.

Definition wordRun (w : string) : Prop := w <> "" /\ allWord w = true.

(** One or more word characters, the literal [;chunk-signature=], one or
    more word characters. *)
Definition ChunkSignature (m : string) : Prop :=
  exists w1 w2, wordRun w1 /\ wordRun w2 /\
                m = w1 ++ chunkSignatureLiteral ++ w2.

(** [s] has a substring that matches the pattern. *)
Definition Contains (s : string) : Prop :=
  exists pre m post, ChunkSignature m /\ s = pre ++ m ++ post.

(** A match starts at the head of [s]. *)
Definition MatchAtHead (s : string) : Prop :=
  exists m post, ChunkSignature m /\ s = m ++ post.

Definition startsWithWord (s : string) : bool :=
  match s with
  | "" => false
  | String c _ => regexp.isWordChar c
  end.

(** [Stripped s out]: [out] is [s] with every match of the pattern
    replaced by the empty string, the matches being taken from left to
    right, each one the first to start and as long as it can be, and the
    bytes between them kept as they are. *)
Inductive Stripped : string -> string -> Prop :=
| Stripped_none (s : string) :
    ~ Contains s -> Stripped s s
| Stripped_match (u m rest out : string) :
    ChunkSignature m ->
    startsWithWord rest = false ->
    (forall u1 u2, u = u1 ++ u2 -> u2 <> "" -> ~ MatchAtHead (u2 ++ m ++ rest)) ->
    Stripped rest out ->
    Stripped (u ++ m ++ rest) (u ++ out).

(** A store that gives back what was put: a put whose declared size is
    the sentinel or the length of the data succeeds, and a get of the
    same key right after it delivers the data. *)
Definition Faithful {S : Type} (client : MinioClientInterface S) : Prop :=
  forall c bucket key data size opts s,
    size = multipartDefaultSize \/ size = len data ->
    exists s1,
      PutObject client c bucket key data size opts s = (None, s1) /\
      forall c' opts', exists reader s2,
          GetObject client c' bucket key opts' s1 = (inl reader, s2) /\
          minio.delivered reader = data.

(** A codec that reads back what it writes. *)
Definition RoundTrips {V : Type} (yaml : YamlCodec V) (v : V) (data : bytes) : Prop :=
  Marshal yaml v = inl data /\ forall o, Unmarshal yaml data o = (v, None).

(* ================================================================== *)
(** ** Instances: an in-memory store, a client without connection, and a
    codec of one-line scalars *)

Module memory.

Definition Store : Type := string -> string -> option bytes.

Definition empty : Store := fun _ _ => None.

Definition update (s : Store) (bucket key : string) (v : option bytes) : Store :=
  fun bucket' key' =>
    if String.eqb bucket bucket' && String.eqb key key' then v
    else s bucket' key'.

(** The bytes taken from the reader for a declared size: all of them
    for a negative size, at most [objectSize] of them otherwise. *)
Definition received (data : bytes) (objectSize : Z) : bytes :=
  if (objectSize <? 0)%Z then data else firstn (Z.to_nat objectSize) data.

Definition client : MinioClientInterface Store := {|
  PutObject := fun _ bucket key data size _ s =>
    (None, update s bucket key (Some (received data size)));
  GetObject := fun _ bucket key _ s =>
    match s bucket key with
    | Some v => (inl {| minio.delivered := v; minio.failure := None |}, s)
    | None => (inr (ExternalError "The specified key does not exist."), s)
    end;
  DeleteObject := fun _ bucket key s => (None, update s bucket key None)
|}.

(** A client whose objects fail while they are read: the get succeeds
    and the reader delivers the first bytes and then an error. *)
Definition interrupted (n : nat) : MinioClientInterface Store := {|
  PutObject := PutObject client;
  GetObject := fun _ bucket key _ s =>
    match s bucket key with
    | Some v => (inl {| minio.delivered := firstn n v;
                        minio.failure := Some (ExternalError "unexpected EOF") |},
                 s)
    | None => (inr (ExternalError "The specified key does not exist."), s)
    end;
  DeleteObject := DeleteObject client
|}.

(** A client that cannot reach its store: every call fails. *)
Definition refused : error := ExternalError "connection refused".

Definition offline : MinioClientInterface unit := {|
  PutObject := fun _ _ _ _ _ _ s => (Some refused, s);
  GetObject := fun _ _ _ _ s => (inr refused, s);
  DeleteObject := fun _ _ _ s => (Some refused, s)
|}.

End memory.

Module lineCodec.

Definition lf : ascii := ascii_of_nat 10.

Fixpoint oneLine (s : string) : bool :=
  match s with
  | "" => true
  | String c s' => negb (Ascii.eqb c lf) && oneLine s'
  end.

(** [s] without its last byte, when that byte is a line feed. *)
Fixpoint chomp (s : string) : option string :=
  match s with
  | "" => None
  | String c "" => if Ascii.eqb c lf then Some "" else None
  | String c s' =>
      match chomp s' with
      | Some b => Some (String c b)
      | None => None
      end
  end.

(** A scalar of one line is written as its text and a line feed; a
    scalar with a line feed in it is refused. *)
Definition codec : YamlCodec string := {|
  Marshal := fun v =>
    if oneLine v then inl (list_byte_of_string (v ++ String lf ""))
    else inr (ExternalError "line feed in a scalar");
  Unmarshal := fun data o =>
    match chomp (string_of_list_byte data) with
    | Some v => if oneLine v then (v, None)
                else (o, Some (ExternalError "more than one line"))
    | None => (o, Some (ExternalError "no line feed at the end"))
    end
|}.

End lineCodec.

(** ** Example worlds *)

Module demo.

Definition bucket : string := "mlpipeline".

(** An adapter over the in-memory store, the store being empty. *)
Definition fresh (base : string) (flag : bool) : World memory.Store string :=
  newWorld (NewMinioObjectStore memory.client bucket base flag) memory.empty.

(** The same with one object in the store. *)
Definition holding (flag : bool) (key payload : string)
  : World memory.Store string :=
  newWorld (NewMinioObjectStore memory.client bucket "pipelines" flag)
           (memory.update memory.empty bucket key
                          (Some (list_byte_of_string payload))).

(** An adapter whose client cannot reach its store. *)
Definition unreachable (flag : bool) : World unit string :=
  newWorld (NewMinioObjectStore memory.offline bucket "pipelines" flag) tt.

Definition signedPayload : string := "xx abc123;chunk-signature=def456 yy".

Definition signedReader : minio.Object :=
  {| minio.delivered := list_byte_of_string signedPayload;
     minio.failure := None |}.

Definition twoLines : string := "a" ++ String lineCodec.lf "b".

End demo.

(* ================================================================== *)
(** ** Auxiliary functions for the proofs about the pattern *)

(** What the greedy [\w+] leaves at the head of [s], longest run first. *)
Fixpoint runs (s : string) : list string :=
  match s with
  | "" => []
  | String c s' => if regexp.isWordChar c then (runs s' ++ [s'])%list else []
  end.

(** [s] without the word characters at its head, and those characters. *)
Fixpoint skipWord (s : string) : string :=
  match s with
  | "" => ""
  | String c s' => if regexp.isWordChar c then skipWord s' else s
  end.

Fixpoint takeWord (s : string) : string :=
  match s with
  | "" => ""
  | String c s' => if regexp.isWordChar c then String c (takeWord s') else ""
  end.

Fixpoint stripPrefix (l s : string) : option string :=
  match l with
  | "" => Some s
  | String a l' =>
      match s with
      | "" => None
      | String c s' => if Ascii.eqb c a then stripPrefix l' s' else None
      end
  end.

(** The match of the pattern at the head of [s], if there is one: what
    it leaves of [s]. *)
Definition matchHere (s : string) : option string :=
  if startsWithWord s then
    match stripPrefix chunkSignatureLiteral (skipWord s) with
    | Some r => if startsWithWord r then Some (skipWord r) else None
    | None => None
    end
  else None.

(** ** Auxiliary predicates for the proofs about [path.Clean] *)

Fixpoint noSlash (s : string) : bool :=
  match s with
  | "" => true
  | String c s' => negb (Ascii.eqb c path.slash) && noSlash s'
  end.

Definition startsWithSlash (s : string) : bool :=
  match s with
  | "" => false
  | String c _ => Ascii.eqb c path.slash
  end.

(** No two slashes in a row. *)
Fixpoint noDoubleSlash (s : string) : bool :=
  match s with
  | "" => true
  | String c s' =>
      negb (Ascii.eqb c path.slash && startsWithSlash s') && noDoubleSlash s'
  end.

(** What the loop of [path.Clean] keeps true of its buffer: no two
    slashes in a row; no slash at the end, but for the buffer that is the
    root alone; and the same of the part that [..] may not remove. *)
Record CleanInv (rooted : bool) (out : string) (dotdot : nat) : Prop := {
  inv_double : noDoubleSlash out = true;
  inv_last : Str.last out = Some path.slash -> rooted = true /\ out = "/";
  inv_dotdot : dotdot <= String.length out;
  inv_rooted : rooted = true ->
               dotdot = 1 /\ String.get 0 out = Some path.slash;
  inv_prefix : rooted = false ->
               Str.last (Str.take dotdot out) <> Some path.slash
}.

(** A folder name of one element: not empty, without a slash, and
    neither [.] nor [..]. *)
Definition plainElement (b : string) : Prop :=
  b <> "" /\ noSlash b = true /\ b <> "." /\ b <> "..".

(** ** Auxiliary definitions for the further properties *)

(** The elements of a path joined by slashes. *)
Definition joinElements (es : list string) : string := String.concat "/" es.

(** The world of an adapter that differs from the one of [w] in its base
    folder only. *)
Definition withBaseFolder {S V : Type} (base : string) (w : World S V)
  : World S V :=
  {| self := NewMinioObjectStore (minioClient (self w)) (bucketName (self w))
                                 base (disableMultipart (self w));
     store := store w; trace := trace w |}.

(** The byte of the semicolon, with which the literal of the pattern
    starts. *)
Definition semicolon : byte := Byte.x3b.

(** The folder part of the keys under a base folder: what the loop of
    [path.Clean] makes of the base folder, with the slash that the next
    element gets. *)
Definition keyFolder (base : string) : string :=
  match base with
  | "" => ""
  | String c r1 =>
      if Ascii.eqb c path.slash
      then path.addSlash true
             (path.cleanLoop (String.length base) true r1 "/" 1)
      else path.addSlash false
             (path.cleanLoop (String.length base) false base "" 0)
  end.

(** ** Path-join semantics, as the specification words it

    Following the spec's words: the key is the base folder joined with
    the pipeline id under standard path-join rules.  The rules are
    those that the documentation of Go's [path] package states, written
    here on the elements of a path and not on its bytes.  [Join] joins
    the elements with slashes, ignoring empty ones, and cleans the
    result; it returns the empty string when there is nothing to join.
    [Clean] (1) replaces multiple slashes with a single one,
    (2) eliminates each [.] element, (3) eliminates each inner [..]
    element along with the element that precedes it, (4) eliminates
    [..] elements that begin a rooted path; the result ends in a slash
    only if it is the root, and the empty result is written as a dot. *)

(** The first element of a path and the elements after it: the texts
    between the slashes. *)
Fixpoint splitFirst (p : string) : string * list string :=
  match p with
  | "" => ("", [])
  | String c p' =>
      let '(e, es) := splitFirst p' in
      if Ascii.eqb c "/" then ("", e :: es) else (String c e, es)
  end.

Definition splitPath (p : string) : list string :=
  let '(e, es) := splitFirst p in e :: es.

(** One element after the elements kept so far, the last kept being at
    the head of [kept]. *)
Definition resolveStep (rooted : bool) (kept : list string) (e : string)
  : list string :=
  if String.eqb e "" || String.eqb e "." then kept
  else if String.eqb e ".." then
    match kept with
    | x :: kept' => if String.eqb x ".." then e :: kept else kept'
    | [] => if rooted then [] else [e]
    end
  else e :: kept.

Definition standardClean (p : string) : string :=
  if String.eqb p "" then "."
  else
    let rooted := startsWithSlash p in
    let kept := rev (fold_left (resolveStep rooted) (splitPath p) []) in
    if rooted then "/" ++ String.concat "/" kept
    else match kept with
         | [] => "."
         | _ :: _ => String.concat "/" kept
         end.

Definition standardJoin (elem : list string) : string :=
  match filter (fun e => negb (String.eqb e "")) elem with
  | [] => ""
  | nonempty => standardClean (String.concat "/" nonempty)
  end.

(** The buffer and the mark of the loop of [path.Clean] when [k]
    elements [..] and then the elements [es] are kept. *)
Definition keptElements (k : nat) (es : list string) : list string :=
  (repeat ".." k ++ es)%list.

Definition bufferOf (rooted : bool) (k : nat) (es : list string) : string :=
  (if rooted then "/" else "") ++ joinElements (keptElements k es).

Definition markOf (rooted : bool) (k : nat) : nat :=
  if rooted then 1 else String.length (joinElements (repeat ".." k)).

(* ================================================================== *)
(** * Properties *)

(** ** Strings *)

Module StrFacts.
Import Str.

Lemma append_nil_r (s : string) : s ++ "" = s.
Proof. induction s as [|c s IH]; simpl; [reflexivity | now rewrite IH]. Qed.

Lemma append_assoc (a b c : string) : (a ++ b) ++ c = a ++ (b ++ c).
Proof. induction a as [|x a IH]; simpl; [reflexivity | now rewrite IH]. Qed.

Lemma length_append (a b : string) :
  String.length (a ++ b) = String.length a + String.length b.
Proof. induction a as [|x a IH]; simpl; [reflexivity | now rewrite IH]. Qed.

Lemma append_inv_head (a b c : string) : a ++ b = a ++ c -> b = c.
Proof. induction a as [|x a IH]; simpl; intros H; [assumption|]. injection H; auto. Qed.

Lemma append_eq_nil (a b : string) : a ++ b = "" -> a = "" /\ b = "".
Proof. destruct a; simpl; intros H; [auto | discriminate]. Qed.

Lemma last_snoc (s : string) (c : ascii) : last (s ++ String c "") = Some c.
Proof.
  induction s as [|x s IH]; simpl; [reflexivity|].
  rewrite IH. destruct s; reflexivity.
Qed.

Lemma last_append (a b : string) : b <> "" -> last (a ++ b) = last b.
Proof.
  intros Hb. induction a as [|x a IH]; simpl; [reflexivity|].
  rewrite IH. destruct a; simpl; [destruct b; congruence | reflexivity].
Qed.

Lemma take_length_append (a b : string) : take (String.length a) (a ++ b) = a.
Proof. induction a as [|x a IH]; simpl; [destruct b; reflexivity | now rewrite IH]. Qed.

Lemma take_all (s : string) : take (String.length s) s = s.
Proof. induction s as [|x s IH]; simpl; [reflexivity | now rewrite IH]. Qed.

Lemma length_take (n : nat) (s : string) :
  n <= String.length s -> String.length (take n s) = n.
Proof.
  revert s; induction n as [|n IH]; intros [|c s]; simpl; intros H; try lia.
  rewrite IH; lia.
Qed.

End StrFacts.

(** ** Agreement with the tables of Go's tests of [path] *)

Example Clean_cleantests :
  forallb (fun t => String.eqb (path.Clean (fst t)) (snd t)) cleantests = true.
Proof. reflexivity. Qed.

Example Join_jointests :
  forallb (fun t => String.eqb (path.Join (fst t)) (snd t)) jointests = true.
Proof. reflexivity. Qed.

Example Join_examples :
  path.Join ["pipelines"; "abc"] = "pipelines/abc" /\
  path.Join [""; "abc"] = "abc" /\ path.Join [""; ""] = "" /\
  path.Join ["pipelines"; ""] = "pipelines" /\
  path.Join ["pipelines"; "../abc"] = "abc" /\
  path.Join ["pipelines"; "a/../b"] = "pipelines/b" /\
  path.Join ["/"; ""] = "/" /\ path.Join ["a/b"; "../../../c"] = "../c".
Proof. repeat split; reflexivity. Qed.

Example ReplaceAllString_examples :
  regexp.ReplaceAllString chunkSignatureRe
    "xx abc123;chunk-signature=def456 yy" "" = "xx  yy" /\
  regexp.ReplaceAllString chunkSignatureRe
    "5;chunk-signature=ab12_|hello|0;chunk-signature=ff" "" = "|hello|" /\
  regexp.ReplaceAllString chunkSignatureRe ";chunk-signature=ab" ""
    = ";chunk-signature=ab" /\
  regexp.ReplaceAllString chunkSignatureRe "a;chunk-signature=" ""
    = "a;chunk-signature=" /\
  regexp.ReplaceAllString chunkSignatureRe "xabc;chunk-signature=defy-z" ""
    = "-z" /\
  regexp.ReplaceAllString chunkSignatureRe "" "" = "".
Proof. repeat split; reflexivity. Qed.

(** ** The matcher on the chunk-signature pattern *)

Module regexpFacts.
Import regexp.

Lemma plusIter_word (fuel n : nat) (s : string) :
  String.length s < n -> plusIter (ends Word fuel) n s = runs s.
Proof.
  revert s; induction n as [|n IH]; intros s Hlen; [lia|].
  destruct s as [|c s]; simpl; [reflexivity|].
  destruct (isWordChar c); simpl; [|reflexivity].
  assert (Hlt : (String.length s <? S (String.length s))%nat = true)
    by (apply Nat.ltb_lt; lia).
  rewrite Hlt, IH by (simpl in Hlen; lia).
  now rewrite app_nil_r.
Qed.

Lemma ends_literal (fuel : nat) (l : string) :
  forall (c : ascii) (s : string),
    ends (literal c l) fuel s =
    match stripPrefix (String c l) s with
    | Some s' => [s']
    | None => []
    end.
Proof.
  induction l as [|c' l IH]; intros c s.
  - destruct s as [|x s]; simpl; [reflexivity|].
    destruct (Ascii.eqb x c); reflexivity.
  - destruct s as [|x s]; [reflexivity|].
    change (ends (literal c (String c' l)) fuel (String x s))
      with (flat_map (ends (literal c' l) fuel) (ends (Lit c) fuel (String x s))).
    simpl ends at 2. simpl stripPrefix.
    destruct (Ascii.eqb x c); [|reflexivity].
    simpl flat_map. rewrite IH, app_nil_r. reflexivity.
Qed.

Lemma length_skipWord (s : string) : String.length (skipWord s) <= String.length s.
Proof.
  induction s as [|c s IH]; simpl; [lia|].
  destruct (isWordChar c); simpl; lia.
Qed.

Lemma length_stripPrefix (l s r : string) :
  stripPrefix l s = Some r ->
  String.length s = String.length l + String.length r.
Proof.
  revert s; induction l as [|a l IH]; intros s H; simpl in *.
  - now inversion H.
  - destruct s as [|c s]; [discriminate|].
    destruct (Ascii.eqb c a); [|discriminate].
    simpl. now rewrite (IH _ H).
Qed.

Lemma stripPrefix_spec (l s r : string) :
  stripPrefix l s = Some r <-> s = l ++ r.
Proof.
  revert s; induction l as [|a l IH]; intros s; simpl.
  - split; intros H; [now inversion H | now subst].
  - destruct s as [|c s].
    + split; intros H; discriminate.
    + destruct (Ascii.eqb_spec c a) as [->|Hne].
      * rewrite IH. split; intros H; [now subst | now inversion H].
      * split; intros H; [discriminate | inversion H; congruence].
Qed.

Lemma skipWord_startsWithWord (s : string) : startsWithWord (skipWord s) = false.
Proof.
  induction s as [|c s IH]; simpl; [reflexivity|].
  destruct (isWordChar c) eqn:E; [assumption | simpl; assumption].
Qed.

Lemma take_skip (s : string) : s = takeWord s ++ skipWord s.
Proof.
  induction s as [|c s IH]; simpl; [reflexivity|].
  destruct (isWordChar c); simpl; [now rewrite <- IH | reflexivity].
Qed.

Lemma allWord_takeWord (s : string) : allWord (takeWord s) = true.
Proof.
  induction s as [|c s IH]; simpl; [reflexivity|].
  destruct (isWordChar c) eqn:E; simpl; [now rewrite E | reflexivity].
Qed.

Lemma takeWord_nonempty (s : string) :
  startsWithWord s = true -> takeWord s <> "".
Proof. destruct s as [|c s]; simpl; [discriminate|]. intros ->. discriminate. Qed.

Lemma skipWord_append (w t : string) :
  allWord w = true -> startsWithWord t = false -> skipWord (w ++ t) = t.
Proof.
  intros Hw Ht. induction w as [|c w IH]; simpl in *.
  - destruct t as [|x t]; simpl in *; [reflexivity | now rewrite Ht].
  - apply andb_true_iff in Hw as [-> Hw]. auto.
Qed.

Lemma startsWithWord_append (w t : string) :
  wordRun w -> startsWithWord (w ++ t) = true.
Proof.
  intros [Hne Hw]. destruct w as [|c w]; [congruence|].
  simpl in *. now apply andb_true_iff in Hw as [-> _].
Qed.

(** The ways [\w+] followed by the rest of the pattern can match: only
    the longest run of word characters can be followed by the literal. *)
Lemma flat_map_runs (f : string -> list string) (s : string) :
  (forall t, startsWithWord t = true -> f t = []) ->
  flat_map f (runs s) = if startsWithWord s then f (skipWord s) else [].
Proof.
  intros Hf. induction s as [|c s IH]; simpl; [reflexivity|].
  destruct (isWordChar c); [|reflexivity].
  rewrite flat_map_app, IH. simpl. rewrite app_nil_r.
  destruct s as [|x s]; simpl; [reflexivity|].
  destruct (isWordChar x) eqn:E; simpl.
  - rewrite (Hf (String x s)) by (simpl; assumption). now rewrite app_nil_r.
  - reflexivity.
Qed.

Lemma hd_runs (s : string) :
  hd_error (runs s) = if startsWithWord s then Some (skipWord s) else None.
Proof.
  induction s as [|c s IH]; simpl; [reflexivity|].
  destruct (isWordChar c); [|reflexivity].
  destruct (runs s) as [|r rs] eqn:E; simpl in *.
  - destruct s as [|x s]; simpl in *; [reflexivity|].
    destruct (isWordChar x); [discriminate | reflexivity].
  - destruct (startsWithWord s); [assumption | discriminate].
Qed.

(** The first way of matching the pattern at the head of [s]. *)
Lemma hd_ends_chunkSignatureRe (fuel : nat) (s : string) :
  String.length s < fuel ->
  hd_error (ends chunkSignatureRe fuel s) = matchHere s.
Proof.
  intros Hfuel. unfold chunkSignatureRe, matchHere.
  change (hd_error
            (flat_map (fun t => flat_map (ends (Plus Word) fuel)
                                  (ends (literal ";" "chunk-signature=") fuel t))
                      (ends (Plus Word) fuel s)) = 
          if startsWithWord s then
            match stripPrefix chunkSignatureLiteral (skipWord s) with
            | Some r => if startsWithWord r then Some (skipWord r) else None
            | None => None
            end
          else None).
  change (ends (Plus Word) fuel s) with (plusIter (ends Word fuel) fuel s).
  rewrite plusIter_word by assumption.
  rewrite flat_map_runs.
  - destruct (startsWithWord s); [|reflexivity].
    rewrite ends_literal.
    change (String ";" "chunk-signature=") with chunkSignatureLiteral.
    destruct (stripPrefix chunkSignatureLiteral (skipWord s)) as [r|] eqn:E;
      [|reflexivity].
    simpl flat_map. rewrite app_nil_r.
    change (hd_error (plusIter (ends Word fuel) fuel r) =
            if startsWithWord r then Some (skipWord r) else None).
    rewrite plusIter_word.
    + apply hd_runs.
    + apply length_stripPrefix in E. pose proof (length_skipWord s). lia.
  - intros t Ht. rewrite ends_literal.
    destruct t as [|x t]; [discriminate|]. simpl in Ht.
    simpl stripPrefix.
    destruct (Ascii.eqb_spec x ";") as [->|_]; [discriminate | reflexivity].
Qed.

End regexpFacts.

Module stripFacts.
Import regexp regexpFacts StrFacts.

(** No expression of the fragment matches the empty string. *)
Lemma plusIter_shorter (step : string -> list string) :
  (forall s x, In x (step s) -> String.length x < String.length s) ->
  forall n s x, In x (plusIter step n s) -> String.length x < String.length s.
Proof.
  intros Hstep. induction n as [|n IH]; intros s x Hin; simpl in Hin; [tauto|].
  apply in_flat_map in Hin as [t [Ht Hx]].
  apply Hstep in Ht. apply in_app_or in Hx as [Hx | [<- | []]]; [|assumption].
  destruct (String.length t <? String.length s)%nat; [|destruct Hx].
  apply IH in Hx. lia.
Qed.

Lemma ends_shorter (r : Regexp) (fuel : nat) :
  forall s x, In x (ends r fuel s) -> String.length x < String.length s.
Proof.
  induction r as [| a | r1 IH1 r2 IH2 | r IH]; intros s x Hin.
  - destruct s as [|c s]; simpl in Hin; [tauto|].
    destruct (isWordChar c); simpl in Hin; [|tauto].
    destruct Hin as [<- | []]. simpl. lia.
  - destruct s as [|c s]; simpl in Hin; [tauto|].
    destruct (Ascii.eqb c a); simpl in Hin; [|tauto].
    destruct Hin as [<- | []]. simpl. lia.
  - simpl in Hin. apply in_flat_map in Hin as [t [Ht Hx]].
    apply IH1 in Ht. apply IH2 in Hx. lia.
  - simpl in Hin. eapply plusIter_shorter; eauto.
Qed.

(** [find] on the pattern, one position at a time. *)
Lemma find_step (s : string) :
  find chunkSignatureRe s =
  match matchHere s with
  | Some a => Some ("", a)
  | None =>
      match s with
      | "" => None
      | String c s' =>
          match find chunkSignatureRe s' with
          | Some (b, a) => Some (String c b, a)
          | None => None
          end
      end
  end.
Proof.
  pose proof (hd_ends_chunkSignatureRe (S (String.length s)) s
                (Nat.lt_succ_diag_r _)) as H.
  destruct s as [|c s]; cbn [find];
    destruct (ends chunkSignatureRe _ _) as [|a l]; simpl in H;
    rewrite <- H; reflexivity.
Qed.

Lemma matchHere_sound (s a : string) :
  matchHere s = Some a ->
  exists m, ChunkSignature m /\ s = m ++ a /\ startsWithWord a = false.
Proof.
  unfold matchHere. intros H.
  destruct (startsWithWord s) eqn:Hs; [|discriminate].
  destruct (stripPrefix chunkSignatureLiteral (skipWord s)) as [r|] eqn:Hr;
    [|discriminate].
  destruct (startsWithWord r) eqn:Hw; [|discriminate].
  injection H as <-.
  apply stripPrefix_spec in Hr.
  exists (takeWord s ++ chunkSignatureLiteral ++ takeWord r). split; [|split].
  - exists (takeWord s), (takeWord r). repeat split;
      auto using takeWord_nonempty, allWord_takeWord.
  - rewrite (take_skip s) at 1. rewrite Hr, (take_skip r) at 1.
    now rewrite !append_assoc.
  - apply skipWord_startsWithWord.
Qed.

Lemma matchHere_complete (s : string) :
  MatchAtHead s -> exists a, matchHere s = Some a.
Proof.
  intros (m & post & (w1 & w2 & Hw1 & Hw2 & ->) & ->).
  unfold matchHere. rewrite !append_assoc.
  rewrite startsWithWord_append by assumption.
  rewrite skipWord_append by (try apply Hw1; reflexivity).
  assert (Hs : stripPrefix chunkSignatureLiteral
                 (chunkSignatureLiteral ++ w2 ++ post) = Some (w2 ++ post))
    by now apply stripPrefix_spec.
  rewrite Hs, startsWithWord_append by assumption. eauto.
Qed.

Lemma chunkSignature_nonempty (m : string) :
  ChunkSignature m -> 0 < String.length m.
Proof.
  intros (w1 & w2 & [Hne _] & _ & ->). rewrite length_append.
  destruct w1; [congruence | simpl; lia].
Qed.

(** What [find] returns on the pattern: the first match from the left,
    as long as it can be. *)
Lemma find_some (s b a : string) :
  find chunkSignatureRe s = Some (b, a) ->
  exists m, ChunkSignature m /\ s = b ++ m ++ a /\ startsWithWord a = false /\
            forall u1 u2, b = u1 ++ u2 -> u2 <> "" ->
                          ~ MatchAtHead (u2 ++ m ++ a).
Proof.
  revert b a; induction s as [|c s IH]; intros b a H; rewrite find_step in H.
  - destruct (matchHere "") as [a'|] eqn:E; [discriminate E | discriminate H].
  - destruct (matchHere (String c s)) as [a'|] eqn:E.
    + injection H as <- <-. apply matchHere_sound in E as (m & Hm & Hs & Ha).
      exists m. repeat split; try assumption.
      intros u1 u2 Hu Hne. symmetry in Hu.
      apply append_eq_nil in Hu as [_ ->]. congruence.
    + destruct (find chunkSignatureRe s) as [[b' a']|] eqn:F; [|discriminate].
      injection H as <- <-.
      destruct (IH _ _ eq_refl) as (m & Hm & Hs & Ha & Hleft).
      exists m. repeat split; try assumption.
      * simpl. now rewrite <- Hs.
      * intros u1 u2 Hu Hne Hmatch. destruct u1 as [|x u1]; simpl in Hu.
        -- subst u2. simpl in Hmatch. rewrite <- Hs in Hmatch.
           apply matchHere_complete in Hmatch as [a0 Ha0]. congruence.
        -- injection Hu as _ Hu. exact (Hleft _ _ Hu Hne Hmatch).
Qed.

Lemma find_none (s : string) :
  find chunkSignatureRe s = None -> ~ Contains s.
Proof.
  induction s as [|c s IH]; intros H (pre & m & post & Hm & Hs);
    rewrite find_step in H.
  - symmetry in Hs. apply append_eq_nil in Hs as [_ Hs].
    apply append_eq_nil in Hs as [-> _].
    apply chunkSignature_nonempty in Hm. simpl in Hm. lia.
  - destruct (matchHere (String c s)) as [a|] eqn:E; [discriminate|].
    destruct pre as [|x pre]; simpl in Hs.
    + assert (Hh : MatchAtHead (String c s)) by (exists m, post; auto).
      apply matchHere_complete in Hh as [a Ha]. congruence.
    + injection Hs as _ Hs.
      destruct (find chunkSignatureRe s) as [[b a]|] eqn:F; [discriminate|].
      apply IH; [reflexivity|]. exists pre, m, post. auto.
Qed.

Lemma find_contains (s : string) :
  ~ Contains s -> find chunkSignatureRe s = None.
Proof.
  intros Hno. destruct (find chunkSignatureRe s) as [[b a]|] eqn:F;
    [|reflexivity].
  apply find_some in F as (m & Hm & Hs & _). exfalso. apply Hno.
  exists b, m, a. auto.
Qed.

(** [ReplaceAllString] with the pattern and the empty replacement
    strips every match. *)
Lemma replaceAll_Stripped (n : nat) :
  forall s, String.length s < n ->
            Stripped s (replaceAll n chunkSignatureRe s "").
Proof.
  induction n as [|n IH]; intros s Hlen; [lia|]. simpl.
  destruct (find chunkSignatureRe s) as [[b a]|] eqn:F.
  - destruct (find_some _ _ _ F) as (m & Hm & Hs & Ha & Hleft).
    rewrite Hs at 1. apply Stripped_match; try assumption.
    apply IH. apply chunkSignature_nonempty in Hm.
    rewrite Hs, !length_append in Hlen. lia.
  - apply Stripped_none. now apply find_none.
Qed.

Lemma ReplaceAllString_Stripped (s : string) :
  Stripped s (ReplaceAllString chunkSignatureRe s "").
Proof. apply replaceAll_Stripped. lia. Qed.

Lemma ReplaceAllString_no_match (s : string) :
  ~ Contains s -> ReplaceAllString chunkSignatureRe s "" = s.
Proof.
  intros H. unfold ReplaceAllString. simpl. now rewrite find_contains.
Qed.

Lemma append_inv_tail (a b c : string) : a ++ c = b ++ c -> a = b.
Proof.
  revert b; induction a as [|x a IH]; intros [|y b] H; simpl in H.
  - reflexivity.
  - apply (f_equal String.length) in H. simpl in H.
    rewrite length_append in H. lia.
  - apply (f_equal String.length) in H. simpl in H.
    rewrite length_append in H. lia.
  - injection H as -> H. now rewrite (IH _ H).
Qed.

Lemma append_eq_split (a b c d : string) :
  a ++ b = c ++ d ->
  exists e, (c = a ++ e /\ b = e ++ d) \/ (a = c ++ e /\ d = e ++ b).
Proof.
  revert c; induction a as [|x a IH]; intros c H; simpl in H.
  - exists c. left. auto.
  - destruct c as [|y c]; simpl in H.
    + exists (String x a). right. auto.
    + injection H as -> H. destruct (IH _ H) as [e [[-> ->] | [-> ->]]];
        exists e; [left | right]; auto.
Qed.

Lemma matchHere_exact (m rest : string) :
  ChunkSignature m -> startsWithWord rest = false ->
  matchHere (m ++ rest) = Some rest.
Proof.
  intros (w1 & w2 & Hw1 & Hw2 & ->) Hrest.
  unfold matchHere. rewrite !append_assoc.
  rewrite startsWithWord_append by assumption.
  rewrite skipWord_append by (try apply Hw1; reflexivity).
  assert (Hs : stripPrefix chunkSignatureLiteral
                 (chunkSignatureLiteral ++ w2 ++ rest) = Some (w2 ++ rest))
    by now apply stripPrefix_spec.
  rewrite Hs, startsWithWord_append by assumption.
  now rewrite skipWord_append by (try apply Hw2; assumption).
Qed.

(** [Stripped] determines its result. *)
Lemma Stripped_functional (s o1 : string) :
  Stripped s o1 -> forall o2, Stripped s o2 -> o1 = o2.
Proof.
  induction 1 as [s Hno | u m rest out Hm Hrest Hleft Hrec IH]; intros o2 H2.
  - inversion H2 as [? _ | u' m' rest' out' Hm' _ _ _]; subst; [reflexivity|].
    exfalso. apply Hno. exists u', m', rest'. auto.
  - remember (u ++ m ++ rest) as s eqn:Es.
    destruct H2 as [s Hno | u' m' rest' out' Hm' Hrest' Hleft' Hrec'].
    + exfalso. apply Hno. exists u, m, rest. auto.
    + assert (Hu : u = u' /\ m ++ rest = m' ++ rest').
      { destruct (append_eq_split _ _ _ _ Es) as [e [[-> He] | [-> He]]].
        - destruct e as [|x e]; [rewrite append_nil_r; auto|].
          exfalso. apply (Hleft u' (String x e) eq_refl); [discriminate|].
          rewrite <- He. exists m', rest'. auto.
        - destruct e as [|x e]; [rewrite append_nil_r; auto|].
          exfalso. apply (Hleft' u (String x e) eq_refl); [discriminate|].
          rewrite <- He. exists m, rest. auto. }
      destruct Hu as [<- Hmr].
      pose proof (matchHere_exact _ _ Hm Hrest) as E1.
      pose proof (matchHere_exact _ _ Hm' Hrest') as E2.
      rewrite Hmr, E2 in E1. injection E1 as <-.
      now rewrite (IH _ Hrec').
Qed.

(** The pattern as the specification words it is the language of the
    compiled expression. *)
Lemma Matches_plus_word (w : string) :
  Matches (Plus Word) w <-> wordRun w.
Proof.
  split.
  - intros H. remember (Plus Word) as r eqn:Er.
    induction H as [| | | r s H | r s1 s2 H1 _ H2 IH]; try discriminate;
      injection Er as ->.
    + inversion H as [c Hc | | | |]; subst.
      split; [discriminate | simpl; now rewrite Hc].
    + inversion H1 as [c Hc | | | |]; subst. destruct (IH eq_refl) as [_ Hw].
      split; [discriminate | simpl; now rewrite Hc, Hw].
  - intros [Hne Hw]. induction w as [|c w IH]; [congruence|].
    simpl in Hw. apply andb_true_iff in Hw as [Hc Hw].
    destruct w as [|c' w].
    + apply MatchesPlusOne. now apply MatchesWord.
    + change (String c (String c' w)) with (String c "" ++ String c' w).
      apply MatchesPlusMore; [now apply MatchesWord|].
      apply IH; [discriminate | assumption].
Qed.

Lemma Matches_literal (l : string) :
  forall c s, Matches (literal c l) s <-> s = String c l.
Proof.
  induction l as [|c' l IH]; intros c s; simpl.
  - split; [intros H; now inversion H | intros ->; constructor].
  - split.
    + intros H. inversion H as [| | r1 r2 s1 s2 H1 H2 | |]; subst.
      inversion H1; subst. apply IH in H2 as ->. reflexivity.
    + intros ->. change (String c (String c' l)) with (String c "" ++ String c' l).
      constructor; [constructor | now apply IH].
Qed.

Lemma Matches_chunkSignatureRe (m : string) :
  Matches chunkSignatureRe m <-> ChunkSignature m.
Proof.
  unfold chunkSignatureRe, ChunkSignature. split.
  - intros H. inversion H as [| | r1 r2 w1 s2 H1 H2 | |]; subst.
    inversion H2 as [| | r1 r2 l w2 H3 H4 | |]; subst.
    apply (proj1 (Matches_literal "chunk-signature=" ";" l)) in H3. subst l.
    exists w1, w2. repeat split; try now apply Matches_plus_word.
  - intros (w1 & w2 & Hw1 & Hw2 & ->).
    constructor; [now apply Matches_plus_word|].
    constructor; [now apply Matches_literal | now apply Matches_plus_word].
Qed.

End stripFacts.

(* ================================================================== *)
(** ** The in-memory store and the codec of one-line scalars *)

Lemma memory_client_Faithful : Faithful memory.client.
Proof.
  intros c bucket key data size opts s Hsize.
  eexists. split; [reflexivity|]. intros c' opts'. simpl.
  unfold memory.update. rewrite !String.eqb_refl. simpl.
  do 2 eexists. split; [reflexivity|]. simpl.
  unfold memory.received. destruct Hsize as [-> | ->]; [reflexivity|].
  unfold len. destruct (Z.ltb_spec (Z.of_nat (List.length data)) 0); [lia|].
  rewrite Nat2Z.id. apply firstn_all.
Qed.

Lemma chomp_snoc (v : string) :
  lineCodec.chomp (v ++ String lineCodec.lf "") = Some v.
Proof.
  induction v as [|c v IH]; [reflexivity|].
  change (String c v ++ String lineCodec.lf "")
    with (String c (v ++ String lineCodec.lf "")).
  cbn [lineCodec.chomp]. rewrite IH. destruct v; reflexivity.
Qed.

Lemma lineCodec_RoundTrips (v : string) :
  lineCodec.oneLine v = true ->
  RoundTrips lineCodec.codec v
             (list_byte_of_string (v ++ String lineCodec.lf "")).
Proof.
  intros Hv. split; simpl.
  - now rewrite Hv.
  - intros o. now rewrite string_of_list_byte_of_string, chomp_snoc, Hv.
Qed.

(* ================================================================== *)
(** ** The adapter *)

Section AdapterFacts.

Context {S V : Type}.
Variable yaml : YamlCodec V.

Lemma AddFile_run (c : Context) (file : bytes) (filePath : string)
      (w : World S V) :
  let m := self w in
  let parts := if disableMultipart m then Z.of_nat (List.length file)
               else (-1)%Z in
  let r := PutObject (minioClient m) c (bucketName m) filePath file parts
             {| minio.ContentType := "application/octet-stream" |} (store w) in
  AddFile c file filePath w =
  (match fst r with
   | Some err => Some (NewInternalServerError err "Failed to store file %v"
                                              [ArgString filePath])
   | None => None
   end, after w (putEvent m c file filePath) (snd r)).
Proof.
  cbv zeta. unfold AddFile, bind, getSelf, clientCall, ret, after, putEvent,
    int64, len, multipartDefaultSize.
  destruct (PutObject _ _ _ _ _ _ _ _) as [[err|] s']; reflexivity.
Qed.

Lemma GetFile_run (c : Context) (filePath : string) (w : World S V) :
  let m := self w in
  let r := GetObject (minioClient m) c (bucketName m) filePath
             minio.GetObjectOptions0 (store w) in
  GetFile c filePath w =
  (match fst r with
   | inr err => inr (NewInternalServerError err "Failed to get file %v"
                                            [ArgString filePath])
   | inl reader =>
       inl (if disableMultipart m
            then list_byte_of_string
                   (regexp.ReplaceAllString chunkSignatureRe
                      (string_of_list_byte (minio.delivered reader)) "")
            else minio.delivered reader)
   end, after w (getEvent m c filePath) (snd r)).
Proof.
  cbv zeta. unfold GetFile, bind, getSelf, clientCall, ret, after, getEvent, ReadFrom.
  destruct (GetObject _ _ _ _ _ _) as [[reader|err] s']; reflexivity.
Qed.

Lemma DeleteFile_run (c : Context) (filePath : string) (w : World S V) :
  let m := self w in
  let r := DeleteObject (minioClient m) c (bucketName m) filePath (store w) in
  DeleteFile c filePath w =
  (match fst r with
   | Some err => Some (NewInternalServerError err "Failed to delete file %v"
                                              [ArgString filePath])
   | None => None
   end, after w (EvDeleteObject c (bucketName m) filePath) (snd r)).
Proof.
  cbv zeta. unfold DeleteFile, bind, getSelf, clientCall, ret, after.
  destruct (DeleteObject _ _ _ _ _) as [[err|] s']; reflexivity.
Qed.

(** What the stripping leaves of bytes without a match. *)
Lemma strip_no_match (b : bytes) :
  ~ Contains (string_of_list_byte b) ->
  list_byte_of_string
    (regexp.ReplaceAllString chunkSignatureRe (string_of_list_byte b) "") = b.
Proof.
  intros H. rewrite stripFacts.ReplaceAllString_no_match by assumption.
  apply list_byte_of_string_of_list_byte.
Qed.

(** A put followed by a get of the same key, on a faithful store. *)
Lemma put_then_get (c c' : Context) (b : bytes) (p : string) (w : World S V) :
  Faithful (minioClient (self w)) ->
  disableMultipart (self w) = false \/ ~ Contains (string_of_list_byte b) ->
  exists w1 w2,
    AddFile c b p w = (None, w1) /\ GetFile c' p w1 = (inl b, w2) /\
    self w1 = self w.
Proof.
  intros Hf Hb.
  destruct (Hf c (bucketName (self w)) p b
               (if disableMultipart (self w) then Z.of_nat (List.length b)
                else (-1)%Z)
               {| minio.ContentType := "application/octet-stream" |} (store w))
    as (s1 & Hput & Hget).
  { unfold multipartDefaultSize, len.
    destruct (disableMultipart (self w)); auto. }
  destruct (Hget c' minio.GetObjectOptions0) as (reader & s2 & Hg & Hd).
  do 2 eexists. split; [|split].
  - rewrite AddFile_run. cbv zeta. rewrite Hput. reflexivity.
  - rewrite GetFile_run. cbv zeta. simpl self. simpl store.
    rewrite Hg. cbn [fst snd]. rewrite Hd. f_equal.
    destruct (disableMultipart (self w)) eqn:E; [|reflexivity].
    destruct Hb as [Hb | Hb]; [discriminate|].
    now rewrite strip_no_match.
  - reflexivity.
Qed.

(** C1: when the client's get succeeds, [GetFile] returns the bytes the
    reader delivers, with every match of the chunk-signature pattern
    replaced by the empty string and all the other bytes kept when
    [disableMultipart] is true, and as they are when it is false. *)
Theorem GetFile_strips_chunk_signatures
    (c : Context) (filePath : string) (w : World S V)
    (reader : minio.Object) (s' : S) :
  GetObject (minioClient (self w)) c (bucketName (self w)) filePath
            minio.GetObjectOptions0 (store w) = (inl reader, s') ->
  exists out : bytes,
    GetFile c filePath w
    = (inl out, after w (getEvent (self w) c filePath) s') /\
    (disableMultipart (self w) = true ->
     Stripped (string_of_list_byte (minio.delivered reader))
              (string_of_list_byte out)) /\
    (disableMultipart (self w) = false -> out = minio.delivered reader).
Proof.
  intros Hget. rewrite GetFile_run. cbv zeta. rewrite Hget. cbn [fst snd].
  eexists. split; [reflexivity|]. split; intros ->; [|reflexivity].
  rewrite string_of_list_byte_of_string.
  apply stripFacts.ReplaceAllString_Stripped.
Qed.

(** C2: on a store that gives back what was put, [AddFile(b, p)]
    followed by [GetFile(p)] returns [b], provided [disableMultipart]
    is false or [b] has no substring that matches the chunk-signature
    pattern. *)
Theorem AddFile_GetFile_round_trip
    (c c' : Context) (b : bytes) (p : string) (w : World S V) :
  Faithful (minioClient (self w)) ->
  disableMultipart (self w) = false \/ ~ Contains (string_of_list_byte b) ->
  exists w1 w2,
    AddFile c b p w = (None, w1) /\ GetFile c' p w1 = (inl b, w2).
Proof.
  intros Hf Hb.
  destruct (put_then_get c c' b p w Hf Hb) as (w1 & w2 & H1 & H2 & _).
  eauto.
Qed.

(** C4: the size that [AddFile] declares to the client's put is the
    length of the blob when [disableMultipart] is true and the sentinel
    [multipartDefaultSize], which is -1, when it is false; the put is
    the only call made. *)
Theorem AddFile_declared_size
    (c : Context) (file : bytes) (filePath : string) (w : World S V) :
  let m := self w in
  let size := if disableMultipart m then Z.of_nat (List.length file)
              else multipartDefaultSize in
  let opts := {| minio.ContentType := "application/octet-stream" |} in
  multipartDefaultSize = (-1)%Z /\
  trace (snd (AddFile c file filePath w))
  = (trace w ++ [EvPutObject c (bucketName m) filePath file size opts])%list /\
  store (snd (AddFile c file filePath w))
  = snd (PutObject (minioClient m) c (bucketName m) filePath file size opts
                   (store w)).
Proof.
  cbv zeta. rewrite AddFile_run. cbv zeta. simpl. auto.
Qed.

Lemma AddAsYamlFile_run (c : Context) (o : V) (filePath : string)
      (w : World S V) :
  AddAsYamlFile yaml c o filePath w =
  let w' := after w (EvMarshal o) (store w) in
  match Marshal yaml o with
  | inr err =>
      (Some (NewInternalServerError err "Failed to marshal file %v: %v"
               [ArgString filePath; ArgErrorText err]), w')
  | inl data =>
      let '(err, w'') := AddFile c data filePath w' in
      (match err with
       | Some err => Some (Wrap err "Failed to add a yaml file")
       | None => None
       end, w'')
  end.
Proof.
  unfold AddAsYamlFile, bind, codecCall, ret, after. cbv zeta.
  destruct (Marshal yaml o) as [data|err]; [|reflexivity].
  destruct (AddFile c data filePath _) as [[err|] w'']; reflexivity.
Qed.

Lemma GetFromYamlFile_run (c : Context) (o : V) (filePath : string)
      (w : World S V) :
  GetFromYamlFile yaml c o filePath w =
  let '(r, w1) := GetFile c filePath w in
  match r with
  | inr err => ((o, Some (Wrap err "Failed to read from a yaml file")), w1)
  | inl data =>
      let '(o', err) := Unmarshal yaml data o in
      ((o', match err with
            | Some err =>
                Some (NewInternalServerError err
                        "Failed to unmarshal file %v: %v"
                        [ArgString filePath; ArgErrorText err])
            | None => None
            end), after w1 (EvUnmarshal data o) (store w1))
  end.
Proof.
  unfold GetFromYamlFile, bind, codecCall, ret, after.
  destruct (GetFile c filePath w) as [[data|err] w1]; [|reflexivity].
  destruct (Unmarshal yaml data o) as [o' [err|]]; reflexivity.
Qed.

(** C3, amended: on a store that gives back what was put and for a
    value that the codec reads back from its serialized text,
    [AddAsYamlFile(v, p)] followed by [GetFromYamlFile(outRef, p)]
    leaves [v] in [outRef], provided [disableMultipart] is false or the
    serialized text has no substring that matches the chunk-signature
    pattern. *)
Theorem AddAsYamlFile_GetFromYamlFile_round_trip
    (c c' : Context) (v o : V) (data : bytes) (p : string) (w : World S V) :
  Faithful (minioClient (self w)) ->
  RoundTrips yaml v data ->
  disableMultipart (self w) = false \/ ~ Contains (string_of_list_byte data) ->
  exists w1 w2,
    AddAsYamlFile yaml c v p w = (None, w1) /\
    GetFromYamlFile yaml c' o p w1 = ((v, None), w2).
Proof.
  intros Hf [Hm Hu] Hd.
  destruct (put_then_get c c' data p (after w (EvMarshal v) (store w)) Hf Hd)
    as (w1 & w2 & H1 & H2 & _).
  do 2 eexists. split.
  - rewrite AddAsYamlFile_run. cbv zeta. rewrite Hm, H1. reflexivity.
  - rewrite GetFromYamlFile_run, H2, Hu. reflexivity.
Qed.

(** C6: when the client's put, get or delete fails, [AddFile],
    [GetFile] or [DeleteFile] returns the error of the matching kind of
    the taxonomy (write, read, delete: three different kinds), with the
    file path and the client's error as its cause, and the failed call
    is the only call made to the client. *)
Theorem client_failure_is_wrapped
    (c : Context) (file : bytes) (filePath : string) (w : World S V)
    (cause : error) (s' : S) :
  let m := self w in
  let failed format := NewInternalServerError cause format [ArgString filePath] in
  (PutObject (minioClient m) c (bucketName m) filePath file
             (if disableMultipart m then Z.of_nat (List.length file)
              else (-1)%Z)
             {| minio.ContentType := "application/octet-stream" |} (store w)
   = (Some cause, s') ->
   AddFile c file filePath w
   = (Some (failed "Failed to store file %v"),
      after w (putEvent m c file filePath) s')) /\
  (GetObject (minioClient m) c (bucketName m) filePath
             minio.GetObjectOptions0 (store w) = (inr cause, s') ->
   GetFile c filePath w
   = (inr (failed "Failed to get file %v"),
      after w (getEvent m c filePath) s')) /\
  (DeleteObject (minioClient m) c (bucketName m) filePath (store w)
   = (Some cause, s') ->
   DeleteFile c filePath w
   = (Some (failed "Failed to delete file %v"),
      after w (EvDeleteObject c (bucketName m) filePath) s')) /\
  (errorKind (failed "Failed to store file %v") = Some StorageWriteError /\
   errorKind (failed "Failed to get file %v") = Some StorageReadError /\
   errorKind (failed "Failed to delete file %v") = Some StorageDeleteError) /\
  (forall format, errorPath (failed format) = Some filePath /\
                  errorCause (failed format) = Some cause) /\
  (StorageWriteError <> StorageReadError /\
   StorageReadError <> StorageDeleteError /\
   StorageWriteError <> StorageDeleteError).
Proof.
  cbv zeta. repeat split; try discriminate; intros H.
  - rewrite AddFile_run. cbv zeta. now rewrite H.
  - rewrite GetFile_run. cbv zeta. now rewrite H.
  - rewrite DeleteFile_run. cbv zeta. now rewrite H.
Qed.

(** C7: when the value cannot be marshalled, [AddAsYamlFile] returns a
    serialization error and makes no call to the store; when the bytes
    that [GetFile] returned cannot be unmarshalled, [GetFromYamlFile]
    returns a deserialization error. *)
Theorem codec_failure_is_wrapped
    (c : Context) (v o o' : V) (data : bytes) (filePath : string)
    (w w1 : World S V) (cause : error) :
  let failed format :=
    NewInternalServerError cause format
                           [ArgString filePath; ArgErrorText cause] in
  (Marshal yaml v = inr cause ->
   AddAsYamlFile yaml c v filePath w
   = (Some (failed "Failed to marshal file %v: %v"),
      after w (EvMarshal v) (store w)) /\
   storeCalls (snd (AddAsYamlFile yaml c v filePath w)) = storeCalls w) /\
  (GetFile c filePath w = (inl data, w1) ->
   Unmarshal yaml data o = (o', Some cause) ->
   GetFromYamlFile yaml c o filePath w
   = ((o', Some (failed "Failed to unmarshal file %v: %v")),
      after w1 (EvUnmarshal data o) (store w1))) /\
  errorKind (failed "Failed to marshal file %v: %v") = Some SerializationError /\
  errorKind (failed "Failed to unmarshal file %v: %v")
  = Some DeserializationError /\
  (forall format, errorPath (failed format) = Some filePath /\
                  errorCause (failed format) = Some cause).
Proof.
  cbv zeta. repeat split.
  - rewrite AddAsYamlFile_run. cbv zeta. now rewrite H.
  - rewrite AddAsYamlFile_run. cbv zeta. rewrite H.
    unfold storeCalls, after. cbn [snd trace].
    rewrite filter_app. simpl. apply app_nil_r.
  - intros Hg Hu. rewrite GetFromYamlFile_run, Hg, Hu. reflexivity.
Qed.

(** C8: the constructor sets the four fields of the adapter from its
    arguments, and each of the six operations leaves the adapter as it
    was. *)
Theorem configuration_is_immutable
    (client : MinioClientInterface S) (bucket base : string) (flag : bool)
    (c : Context) (file : bytes) (v o : V) (p : string) (w : World S V) :
  let m := NewMinioObjectStore client bucket base flag in
  (minioClient m = client /\ bucketName m = bucket /\
   baseFolder m = base /\ disableMultipart m = flag) /\
  self (snd (GetPipelineKey p w)) = self w /\
  self (snd (AddFile c file p w)) = self w /\
  self (snd (DeleteFile c p w)) = self w /\
  self (snd (GetFile c p w)) = self w /\
  self (snd (AddAsYamlFile yaml c v p w)) = self w /\
  self (snd (GetFromYamlFile yaml c o p w)) = self w.
Proof.
  cbv zeta. split; [repeat split|].
  rewrite AddAsYamlFile_run, GetFromYamlFile_run.
  rewrite AddFile_run, DeleteFile_run, GetFile_run. cbv zeta.
  repeat split.
  - destruct (Marshal yaml v) as [data|err]; [|reflexivity].
    rewrite AddFile_run. reflexivity.
  - destruct (fst (GetObject _ _ _ _ _ _)); [|reflexivity].
    destruct (Unmarshal yaml _ o); reflexivity.
Qed.

(** C9: when [GetFile] fails, [GetFromYamlFile] returns that error
    wrapped, the unmarshal step is not run (the get is the only event)
    and the caller's target keeps its content. *)
Theorem GetFromYamlFile_read_failure
    (c : Context) (o : V) (filePath : string) (w w1 : World S V)
    (e : error) :
  GetFile c filePath w = (inr e, w1) ->
  GetFromYamlFile yaml c o filePath w
  = ((o, Some (Wrap e "Failed to read from a yaml file")), w1) /\
  trace w1 = (trace w ++ [getEvent (self w) c filePath])%list.
Proof.
  intros H. rewrite GetFromYamlFile_run, H. split; [reflexivity|].
  rewrite GetFile_run in H. cbv zeta in H.
  destruct (GetObject _ _ _ _ _ _) as [[reader|err] s1];
    cbn [fst snd] in H; [discriminate H|]. injection H as <- <-.
  reflexivity.
Qed.

End AdapterFacts.

(* ================================================================== *)
(** ** [path.Clean] and [path.Join] *)

Module pathFacts.
Import path Str StrFacts.

Lemma copyElement_length (rest : string) :
  String.length (snd (copyElement rest)) <= String.length rest.
Proof.
  induction rest as [|c rest IH]; simpl; [lia|].
  destruct (Ascii.eqb c slash); simpl; [lia|].
  destruct (copyElement rest) as [e r]; simpl in *. lia.
Qed.

Lemma copyElement_shorter (c : ascii) (rest : string) :
  Ascii.eqb c slash = false ->
  String.length (snd (copyElement (String c rest))) <= String.length rest.
Proof.
  intros Hc. simpl. rewrite Hc.
  pose proof (copyElement_length rest).
  destruct (copyElement rest) as [e r]; simpl in *. lia.
Qed.

Lemma length_tail (s : string) : String.length (tail s) <= String.length s.
Proof. destruct s; simpl; lia. Qed.

(** The loop of [Clean] needs no more iterations than there are bytes
    left: with that much fuel or more the result is the same. *)
Lemma cleanLoop_fuel (rooted : bool) :
  forall fuel fuel' rest out dotdot,
    String.length rest <= fuel -> String.length rest <= fuel' ->
    cleanLoop fuel rooted rest out dotdot
    = cleanLoop fuel' rooted rest out dotdot.
Proof.
  induction fuel as [|fuel IH]; intros fuel' rest out dotdot H H'.
  - destruct rest; [|simpl in H; lia]. destruct fuel'; reflexivity.
  - destruct rest as [|c r1]; [destruct fuel'; reflexivity|].
    destruct fuel' as [|fuel']; [simpl in H'; lia|].
    simpl in H, H'. cbn [cleanLoop].
    destruct (Ascii.eqb c slash) eqn:Hc; [apply IH; lia|].
    destruct (Ascii.eqb c dot && endsElement r1); [apply IH; lia|].
    pose proof (length_tail r1).
    destruct (isDotDot c r1).
    + destruct (dotdot <? String.length out)%nat; [apply IH; lia|].
      destruct (negb rooted); apply IH; lia.
    + pose proof (copyElement_shorter c r1 Hc) as Hs.
      destruct (copyElement (String c r1)) as [e r']. simpl in Hs.
      apply IH; lia.
Qed.

Lemma endsElement_snoc (r : string) :
  endsElement (r ++ "/") = endsElement r.
Proof. destruct r; reflexivity. Qed.

Lemma isDotDot_snoc (c : ascii) (r : string) :
  isDotDot c (r ++ "/") = isDotDot c r.
Proof.
  destruct r as [|c' r]; simpl.
  - now rewrite andb_false_r.
  - now rewrite endsElement_snoc.
Qed.

Lemma isDotDot_tail (c : ascii) (r : string) :
  isDotDot c r = true -> tail (r ++ "/") = tail r ++ "/".
Proof. destruct r; simpl; [discriminate | reflexivity]. Qed.

Lemma copyElement_snoc (rest : string) :
  copyElement (rest ++ "/")
  = (fst (copyElement rest), snd (copyElement rest) ++ "/").
Proof.
  induction rest as [|c rest IH]; [reflexivity|].
  change (String c rest ++ "/") with (String c (rest ++ "/")).
  cbn [copyElement]. destruct (Ascii.eqb c slash); [reflexivity|].
  rewrite IH. destruct (copyElement rest); reflexivity.
Qed.

(** A slash at the end of the path is an empty element. *)
Lemma cleanLoop_trailing_slash (rooted : bool) :
  forall fuel rest out dotdot,
    String.length rest < fuel ->
    cleanLoop fuel rooted (rest ++ "/") out dotdot
    = cleanLoop fuel rooted rest out dotdot.
Proof.
  induction fuel as [|fuel IH]; intros rest out dotdot H; [lia|].
  destruct rest as [|c r1].
  - simpl. destruct fuel; reflexivity.
  - simpl in H.
    change (String c r1 ++ "/") with (String c (r1 ++ "/")).
    cbn [cleanLoop]. rewrite endsElement_snoc, isDotDot_snoc.
    destruct (Ascii.eqb c slash) eqn:Hc; [apply IH; lia|].
    destruct (Ascii.eqb c dot && endsElement r1); [apply IH; lia|].
    pose proof (length_tail r1).
    destruct (isDotDot c r1) eqn:Hdd.
    + rewrite (isDotDot_tail _ _ Hdd).
      destruct (dotdot <? String.length out)%nat; [apply IH; lia|].
      destruct (negb rooted); apply IH; lia.
    + change (String c (r1 ++ "/")) with (String c r1 ++ "/").
      rewrite copyElement_snoc.
      pose proof (copyElement_shorter c r1 Hc) as Hs.
      destruct (copyElement (String c r1)) as [e r']. simpl in Hs.
      cbn [fst snd]. apply IH; lia.
Qed.

Lemma Clean_trailing_slash (p : string) :
  p <> "" -> Clean (p ++ "/") = Clean p.
Proof.
  destruct p as [|c r1]; [congruence|]. intros _.
  assert (Hlen : String.length (String c r1 ++ "/")
                 = S (String.length (String c r1)))
    by (rewrite length_append; simpl; lia).
  assert (H1 : forall rooted out dotdot,
             cleanLoop (String.length (String c r1 ++ "/")) rooted
                       (r1 ++ "/") out dotdot
             = cleanLoop (String.length (String c r1)) rooted r1 out dotdot).
  { intros. rewrite cleanLoop_trailing_slash by (rewrite Hlen; simpl; lia).
    apply cleanLoop_fuel; rewrite ?Hlen; simpl; lia. }
  assert (H2 : forall rooted out dotdot,
             cleanLoop (String.length (String c r1 ++ "/")) rooted
                       (String c r1 ++ "/") out dotdot
             = cleanLoop (String.length (String c r1)) rooted (String c r1)
                         out dotdot).
  { intros. rewrite cleanLoop_trailing_slash by (rewrite Hlen; simpl; lia).
    apply cleanLoop_fuel; rewrite ?Hlen; simpl; lia. }
  change (String c r1 ++ "/") with (String c (r1 ++ "/")) in *.
  unfold Clean. cbv zeta.
  destruct (Ascii.eqb c slash); [now rewrite H1 | now rewrite H2].
Qed.

(** [Join] of a non-empty folder and an empty element. *)
Lemma Join_empty_element (base : string) :
  base <> "" -> Join [base; ""] = Clean base.
Proof.
  intros Hb. destruct base as [|c base]; [congruence|].
  assert (Hbuf : joinBuf "" [String c base; ""] = String c base ++ "/")
    by (simpl; now rewrite append_nil_r).
  unfold Join. rewrite Hbuf.
  assert (Hsize : fold_left (fun n e => n + String.length e)
                            [String c base; ""] 0
                  = S (String.length base)) by (simpl; lia).
  rewrite Hsize. cbn [Nat.eqb].
  apply Clean_trailing_slash. discriminate.
Qed.

(** *** The buffer of [Clean] never ends with a slash, the root apart *)

Lemma last_cons (c : ascii) (s : string) :
  s <> "" -> last (String c s) = last s.
Proof. destruct s; [congruence | reflexivity]. Qed.

Lemma take_take (n m : nat) (s : string) :
  n <= m -> take n (take m s) = take n s.
Proof.
  revert m s; induction n as [|n IH]; intros m s H; [now destruct (take m s)|].
  destruct m as [|m]; [lia|]. destruct s as [|c s]; [reflexivity|].
  simpl. rewrite IH by lia. reflexivity.
Qed.

Lemma take_append (n : nat) (s t : string) :
  n <= String.length s -> take n (s ++ t) = take n s.
Proof.
  revert s; induction n as [|n IH]; intros s H.
  - now destruct s, t.
  - destruct s as [|c s]; simpl in *; [lia|]. rewrite IH by lia. reflexivity.
Qed.

Lemma get_append (s t : string) :
  s <> "" -> String.get 0 (s ++ t) = String.get 0 s.
Proof. destruct s; [congruence | reflexivity]. Qed.

Lemma noDoubleSlash_take (n : nat) (s : string) :
  noDoubleSlash s = true -> noDoubleSlash (take n s) = true.
Proof.
  revert s; induction n as [|n IH]; intros s H; [now destruct s|].
  destruct s as [|c s]; [reflexivity|]. simpl in *.
  apply andb_true_iff in H as [H1 H2]. rewrite IH by assumption.
  rewrite andb_true_r.
  destruct (Ascii.eqb c slash); [|reflexivity]. simpl in *.
  destruct n, s; simpl in *; auto.
Qed.

Lemma noDoubleSlash_append (a b : string) :
  noDoubleSlash a = true -> noDoubleSlash b = true ->
  last a <> Some slash \/ startsWithSlash b = false ->
  noDoubleSlash (a ++ b) = true.
Proof.
  intros Ha Hb Hseam. induction a as [|c a IH]; [assumption|].
  simpl in *. apply andb_true_iff in Ha as [H1 H2].
  destruct a as [|c' a].
  - simpl in *. rewrite Hb, andb_true_r.
    destruct Hseam as [Hl | ->]; [|now rewrite andb_false_r].
    destruct (Ascii.eqb_spec c slash) as [->|]; [congruence | reflexivity].
  - rewrite IH; [|assumption|].
    + now rewrite andb_true_r.
    + destruct Hseam; auto.
Qed.

Lemma noSlash_noDoubleSlash (e : string) :
  noSlash e = true -> noDoubleSlash e = true.
Proof.
  induction e as [|c e IH]; [reflexivity|]. simpl.
  intros H. apply andb_true_iff in H as [H1 H2].
  apply negb_true_iff in H1. now rewrite H1, IH.
Qed.

Lemma noSlash_last (e : string) :
  noSlash e = true -> last e <> Some slash.
Proof.
  induction e as [|c e IH]; [discriminate|]. simpl noSlash.
  intros H. apply andb_true_iff in H as [H1 H2].
  destruct e as [|c' e].
  - simpl. intros [= ->]. now rewrite Ascii.eqb_refl in H1.
  - rewrite last_cons by discriminate. auto.
Qed.

Lemma noSlash_start (e : string) :
  noSlash e = true -> startsWithSlash e = false.
Proof.
  destruct e as [|c e]; [reflexivity|]. simpl.
  intros H. apply andb_true_iff in H as [H1 _]. now apply negb_true_iff.
Qed.

(** With no two slashes in a row, what stands before a slash does not
    end with a slash. *)
Lemma last_take_before_slash (s : string) :
  forall w, noDoubleSlash s = true -> String.get w s = Some slash ->
            last (take w s) <> Some slash.
Proof.
  induction s as [|c s IH]; intros w Hd Hg; [destruct w; discriminate|].
  destruct w as [|w]; [discriminate|].
  simpl in Hd, Hg. apply andb_true_iff in Hd as [H1 H2].
  change (take (S w) (String c s)) with (String c (take w s)).
  destruct w as [|w].
  - destruct s as [|c' s]; [discriminate|]. simpl in *.
    injection Hg as ->. rewrite Ascii.eqb_refl, andb_true_r in H1.
    intros [= ->]. discriminate.
  - destruct s as [|c' s]; [discriminate|].
    rewrite last_cons by discriminate. now apply IH.
Qed.

Lemma backtrack_spec (out : string) (dotdot : nat) :
  forall w0, dotdot <= w0 ->
    let w := backtrack out dotdot w0 in
    dotdot <= w <= w0 /\ (w = dotdot \/ String.get w out = Some slash).
Proof.
  induction w0 as [|w0 IH]; intros H; cbv zeta; [simpl; lia|].
  cbn [backtrack].
  destruct (dotdot <? S w0)%nat eqn:Hlt; simpl.
  - apply Nat.ltb_lt in Hlt.
    destruct (String.get (S w0) out) as [c|] eqn:Hg.
    + destruct (Ascii.eqb_spec c slash) as [->|]; simpl.
      * split; [lia | now right].
      * destruct (IH ltac:(lia)) as [? ?]. split; [lia | assumption].
    + simpl. destruct (IH ltac:(lia)) as [? ?]. split; [lia | assumption].
  - apply Nat.ltb_ge in Hlt. split; [lia | left; lia].
Qed.

Lemma copyElement_element (c : ascii) (rest : string) :
  Ascii.eqb c slash = false ->
  let e := fst (copyElement (String c rest)) in
  e <> "" /\ noSlash e = true.
Proof.
  intros Hc. cbv zeta. simpl. rewrite Hc.
  assert (H : noSlash (fst (copyElement rest)) = true).
  { clear. induction rest as [|x rest IH]; [reflexivity|]. simpl.
    destruct (Ascii.eqb x slash) eqn:E; [reflexivity|].
    destruct (copyElement rest) as [e r]; simpl in *. now rewrite E. }
  destruct (copyElement rest) as [e r]; simpl in *.
  split; [discriminate | now rewrite Hc].
Qed.

Lemma inv_backtrack (rooted : bool) (out : string) (dotdot : nat) :
  CleanInv rooted out dotdot -> dotdot < String.length out ->
  CleanInv rooted
    (take (backtrack out dotdot (String.length out - 1)) out) dotdot.
Proof.
  intros [Hd Hl Hdd Hr Hp] Hlt.
  destruct (backtrack_spec out dotdot (String.length out - 1) ltac:(lia))
    as [Hw Hstop].
  cbv zeta in Hw, Hstop.
  remember (backtrack out dotdot (String.length out - 1)) as w eqn:Ew.
  clear Ew.
  assert (Hroot : rooted = true ->
                  String.get 0 (take w out) = Some slash /\
                  (w = 1 -> take w out = "/")).
  { intros Hrt. destruct (Hr Hrt) as [-> Hg].
    destruct out as [|x out]; simpl in Hg; [discriminate|]. injection Hg as ->.
    destruct w as [|w']; [lia|]. simpl. split; [reflexivity|].
    intros [= ->]. now destruct out. }
  split.
  - now apply noDoubleSlash_take.
  - intros Hlast. destruct Hstop as [Hw0 | Hg].
    + destruct rooted; [|rewrite Hw0 in Hlast; now destruct (Hp eq_refl)].
      split; [reflexivity|]. destruct (Hr eq_refl) as [H1 _].
      apply (Hroot eq_refl). lia.
    + now destruct (last_take_before_slash out w Hd Hg).
  - rewrite length_take; lia.
  - intros Hrt. split; [apply (Hr Hrt) | apply (Hroot Hrt)].
  - intros Hrt. rewrite take_take by lia. auto.
Qed.

Lemma inv_dotdot_element (out : string) (dotdot : nat) :
  CleanInv false out dotdot ->
  let out2 := (if (0 <? String.length out)%nat then out ++ "/" else out)
              ++ ".." in
  CleanInv false out2 (String.length out2).
Proof.
  intros [Hd Hl Hdd Hr Hp]. cbv zeta.
  assert (Hlast : last out <> Some slash)
    by (intros H; now destruct (Hl H)).
  split.
  - apply noDoubleSlash_append; [| reflexivity | now right].
    destruct (0 <? String.length out)%nat; [|assumption].
    apply noDoubleSlash_append; auto.
  - rewrite last_append by discriminate. discriminate.
  - lia.
  - discriminate.
  - intros _. rewrite take_all, last_append by discriminate. discriminate.
Qed.

Lemma inv_real_element (rooted : bool) (out e : string) (dotdot : nat) :
  CleanInv rooted out dotdot -> e <> "" -> noSlash e = true ->
  CleanInv rooted (addSlash rooted out ++ e) dotdot.
Proof.
  intros [Hd Hl Hdd Hr Hp] Hne He.
  assert (Hout : exists x, addSlash rooted out ++ e = out ++ x /\
                           noDoubleSlash (addSlash rooted out) = true).
  { unfold addSlash.
    destruct ((rooted && negb (String.length out =? 1)%nat)
              || (negb rooted && negb (String.length out =? 0)%nat)) eqn:E.
    - exists ("/" ++ e). split; [apply append_assoc|].
      apply noDoubleSlash_append; [assumption | reflexivity | left].
      intros H. destruct (Hl H) as [-> ->]. discriminate.
    - exists e. auto. }
  destruct Hout as (x & Hx & Hd1).
  split.
  - apply noDoubleSlash_append; auto using noSlash_noDoubleSlash, noSlash_start.
  - rewrite last_append by assumption. intros H.
    now destruct (noSlash_last e He).
  - rewrite Hx, length_append. lia.
  - intros Hrt. destruct (Hr Hrt) as [H1 Hg]. split; [assumption|].
    rewrite Hx, get_append; [assumption|]. now destruct out.
  - intros Hrt. rewrite Hx, take_append by assumption. auto.
Qed.

Lemma cleanLoop_inv (rooted : bool) :
  forall fuel rest out dotdot,
    CleanInv rooted out dotdot ->
    exists dotdot',
      CleanInv rooted (cleanLoop fuel rooted rest out dotdot) dotdot'.
Proof.
  induction fuel as [|fuel IH]; intros rest out dotdot Hinv; [simpl; eauto|].
  destruct rest as [|c r1]; [simpl; eauto|]. cbn [cleanLoop].
  destruct (Ascii.eqb c slash) eqn:Hc; [now apply IH|].
  destruct (Ascii.eqb c dot && endsElement r1); [now apply IH|].
  destruct (isDotDot c r1).
  - destruct (dotdot <? String.length out)%nat eqn:Hlt.
    + apply IH, inv_backtrack; [assumption | now apply Nat.ltb_lt].
    + destruct rooted; simpl; [now apply IH|].
      apply IH. now apply (inv_dotdot_element out dotdot).
  - destruct (copyElement_element c r1 Hc) as [Hne He].
    destruct (copyElement (String c r1)) as [e r']. simpl in Hne, He.
    apply IH. now apply inv_real_element.
Qed.

(** [Clean] returns a path that ends in a slash only if it is the root. *)
Lemma Clean_trailing (p : string) :
  last (Clean p) = Some slash -> Clean p = "/".
Proof.
  destruct p as [|c r1]; [discriminate|]. unfold Clean. cbv zeta.
  assert (H : exists out dotdot,
             (if Ascii.eqb c slash
              then cleanLoop (String.length (String c r1)) (Ascii.eqb c slash)
                             r1 "/" 1
              else cleanLoop (String.length (String c r1)) (Ascii.eqb c slash)
                             (String c r1) "" 0) = out /\
             CleanInv (Ascii.eqb c slash) out dotdot).
  { destruct (Ascii.eqb c slash).
    - destruct (cleanLoop_inv true (String.length (String c r1)) r1 "/" 1)
        as [dd Hdd]; [|eauto].
      split; simpl; auto; discriminate.
    - destruct (cleanLoop_inv false (String.length (String c r1))
                              (String c r1) "" 0) as [dd Hdd]; [|eauto].
      split; simpl; auto; discriminate. }
  destruct H as (out & dd & -> & Hinv).
  destruct (String.length out =? 0)%nat; [discriminate|].
  intros Hl. now destruct (inv_last _ _ _ Hinv Hl).
Qed.

(** *** A [..] at the head of the second element removes the first *)

Lemma copyElement_noSlash (e rest : string) :
  noSlash e = true -> copyElement (e ++ "/" ++ rest) = (e, "/" ++ rest).
Proof.
  intros He. induction e as [|c e IH]; [reflexivity|].
  simpl in He. apply andb_true_iff in He as [Hc He].
  apply negb_true_iff in Hc.
  change (String c e ++ "/" ++ rest) with (String c (e ++ "/" ++ rest)).
  cbn [copyElement]. now rewrite Hc, IH.
Qed.

Lemma noSlash_get (b : string) :
  noSlash b = true ->
  forall i c, String.get i b = Some c -> Ascii.eqb c slash = false.
Proof.
  induction b as [|x b IH]; intros Hb i c Hg; [destruct i; discriminate|].
  simpl in Hb. apply andb_true_iff in Hb as [Hx Hb].
  destruct i as [|i]; simpl in Hg.
  - injection Hg as <-. now apply negb_true_iff.
  - eauto.
Qed.

Lemma backtrack_noSlash (b : string) :
  noSlash b = true -> forall w, backtrack b 0 w = 0.
Proof.
  intros Hb. induction w as [|w IH]; [reflexivity|].
  cbn [backtrack]. change (0 <? S w)%nat with true. cbn [andb].
  destruct (String.get (S w) b) as [c|] eqn:Hg; [|exact IH].
  now rewrite (noSlash_get b Hb _ _ Hg).
Qed.

(** The first iteration on a path that starts with a plain element. *)
Lemma cleanLoop_plainElement (b rest : string) (fuel : nat) :
  plainElement b ->
  cleanLoop (S fuel) false (b ++ "/" ++ rest) "" 0
  = cleanLoop fuel false ("/" ++ rest) b 0.
Proof.
  intros (Hne & Hb & Hdot & Hdotdot).
  pose proof (copyElement_noSlash b rest Hb) as Hcopy.
  destruct b as [|c b']; [congruence|].
  simpl in Hb. apply andb_true_iff in Hb as [Hc Hb'].
  apply negb_true_iff in Hc.
  change (String c b' ++ "/" ++ rest) with (String c (b' ++ "/" ++ rest)) in *.
  cbn [cleanLoop]. rewrite Hc.
  assert (H1 : Ascii.eqb c dot && endsElement (b' ++ "/" ++ rest) = false).
  { destruct (Ascii.eqb_spec c dot) as [->|]; [|reflexivity].
    destruct b' as [|c' b'']; [now destruct Hdot|].
    simpl in *. apply andb_true_iff in Hb' as [Hc' _].
    now apply negb_true_iff. }
  assert (H2 : isDotDot c (b' ++ "/" ++ rest) = false).
  { destruct b' as [|c' b'']; simpl.
    - now rewrite andb_false_r.
    - destruct (Ascii.eqb_spec c dot) as [->|]; [|reflexivity].
      destruct (Ascii.eqb_spec c' dot) as [->|]; [|reflexivity].
      destruct b'' as [|c'' b3]; [now destruct Hdotdot|].
      pose proof (noSlash_get _ Hb' 1 c'' eq_refl) as Hc''.
      simpl. exact Hc''. }
  rewrite H1, H2, Hcopy. reflexivity.
Qed.

Lemma cleanLoop_escape (b t : string) (fuel : nat) :
  plainElement b ->
  cleanLoop (4 + fuel) false (b ++ "/../" ++ t) "" 0
  = cleanLoop fuel false t "" 0.
Proof.
  intros Hb.
  change (b ++ "/../" ++ t) with (b ++ "/" ++ ("../" ++ t)).
  change (4 + fuel) with (S (S (S (S fuel)))).
  rewrite cleanLoop_plainElement by assumption.
  destruct Hb as (Hne & Hb & _).
  change (cleanLoop (S (S (S fuel))) false ("/" ++ "../" ++ t) b 0)
    with (if (0 <? String.length b)%nat
          then cleanLoop (S fuel) false ("/" ++ t)
                 (take (backtrack b 0 (String.length b - 1)) b) 0
          else cleanLoop (S fuel) false ("/" ++ t)
                 ((if (0 <? String.length b)%nat then b ++ "/" else b) ++ "..")
                 (String.length
                    ((if (0 <? String.length b)%nat then b ++ "/" else b)
                     ++ ".."))).
  destruct b as [|c b']; [congruence|].
  change (0 <? String.length (String c b'))%nat with true. cbv iota.
  rewrite backtrack_noSlash by assumption. reflexivity.
Qed.

(** [Join] of a plain folder name and of an element that starts with
    [..]: nothing of the folder name is left. *)
Lemma Join_escape (b t : string) :
  plainElement b -> t <> "" -> startsWithSlash t = false ->
  Join [b; "../" ++ t] = Clean t.
Proof.
  intros Hb Ht Hs.
  assert (Hbuf : joinBuf "" [b; "../" ++ t] = b ++ "/../" ++ t).
  { destruct Hb as (Hne & _). destruct b as [|c b']; [congruence|].
    simpl. now rewrite append_assoc. }
  assert (Hsize : fold_left (fun n e => n + String.length e)
                            [b; "../" ++ t] 0
                  = S (S (S (String.length b + String.length t))))
    by (simpl; lia).
  unfold Join. rewrite Hbuf, Hsize. cbn [Nat.eqb].
  assert (Hlen : String.length (b ++ "/../" ++ t)
                 = 4 + (String.length b + String.length t))
    by (rewrite !length_append; simpl; lia).
  assert (Hloop : cleanLoop (String.length (b ++ "/../" ++ t)) false
                            (b ++ "/../" ++ t) "" 0
                  = cleanLoop (String.length t) false t "" 0).
  { rewrite Hlen, cleanLoop_escape by assumption.
    apply cleanLoop_fuel; lia. }
  destruct Hb as (Hne & Hb & _).
  destruct b as [|c b']; [congruence|].
  destruct t as [|x t']; [congruence|].
  simpl in Hb, Hs. apply andb_true_iff in Hb as [Hc _].
  apply negb_true_iff in Hc.
  change (String c b' ++ "/../" ++ String x t')
    with (String c (b' ++ "/../" ++ String x t')) in *.
  unfold Clean. cbv zeta. rewrite Hc, Hs, Hloop. reflexivity.
Qed.

End pathFacts.

(* ================================================================== *)
(** ** The pipeline key *)

Section PipelineKey.

Context {S V : Type}.

(** C10, amended: [GetPipelineKey] does not keep its result under the
    base folder, since the join cleans the path: for a base folder of
    one plain element, an id [../t] gives the cleaned [t] alone
    ([pipelines] and [../abc] give [abc]).  For the empty id the key is
    the cleaned base folder alone when the base folder is not empty,
    and the empty string when it is empty; it ends with a separator
    only when it is the root. *)
Theorem GetPipelineKey_not_confined
    (w : World S V) (t : string)
    (client : MinioClientInterface S) (bucket : string) (flag : bool)
    (s : S) (tr : list (Event V)) :
  let base := baseFolder (self w) in
  (plainElement base -> t <> "" -> startsWithSlash t = false ->
   fst (GetPipelineKey ("../" ++ t) w) = path.Clean t) /\
  fst (GetPipelineKey "../abc"
         {| self := NewMinioObjectStore client bucket "pipelines" flag;
            store := s; trace := tr |}) = "abc" /\
  (base <> "" -> fst (GetPipelineKey "" w) = path.Clean base) /\
  (base = "" -> fst (GetPipelineKey "" w) = "") /\
  (Str.last (fst (GetPipelineKey "" w)) = Some "/"%char ->
   fst (GetPipelineKey "" w) = "/").
Proof.
  cbv zeta. unfold GetPipelineKey, bind, getSelf, ret. cbn [fst].
  repeat split.
  - now apply pathFacts.Join_escape.
  - now apply pathFacts.Join_empty_element.
  - now intros ->.
  - destruct (baseFolder (self w)) as [|c b] eqn:E; [discriminate|].
    rewrite pathFacts.Join_empty_element by discriminate.
    apply pathFacts.Clean_trailing.
Qed.

End PipelineKey.

(* ================================================================== *)
(** ** The statements on the example worlds *)

Lemma GetFile_strips_chunk_signatures_witness :
  exists out : bytes,
    GetFile (ctx 0) "pipelines/p1" (demo.holding true "pipelines/p1" demo.signedPayload)
    = (inl out,
       after (demo.holding true "pipelines/p1" demo.signedPayload)
             (getEvent (self (demo.holding true "pipelines/p1" demo.signedPayload))
                       (ctx 0) "pipelines/p1")
             (store (demo.holding true "pipelines/p1" demo.signedPayload))) /\
    (disableMultipart (self (demo.holding true "pipelines/p1" demo.signedPayload))
     = true ->
     Stripped (string_of_list_byte (minio.delivered demo.signedReader))
              (string_of_list_byte out)) /\
    (disableMultipart (self (demo.holding true "pipelines/p1" demo.signedPayload))
     = false -> out = minio.delivered demo.signedReader).
Proof.
  exact (GetFile_strips_chunk_signatures
           (ctx 0) "pipelines/p1"
           (demo.holding true "pipelines/p1" demo.signedPayload)
           demo.signedReader
           (store (demo.holding true "pipelines/p1" demo.signedPayload))
           eq_refl).
Defined.

Example GetFile_strips_example :
  fst (GetFile (ctx 0) "pipelines/p1"
               (demo.holding true "pipelines/p1" demo.signedPayload))
  = inl (list_byte_of_string "xx  yy") /\
  fst (GetFile (ctx 0) "pipelines/p1"
               (demo.holding false "pipelines/p1" demo.signedPayload))
  = inl (list_byte_of_string demo.signedPayload) /\
  fst (GetFile (ctx 0) "pipelines/p1"
               (demo.holding true "pipelines/p1" "xabc123;chunk-signature=def456y"))
  = inl [].
Proof. repeat split; reflexivity. Qed.

(** An error met while the object is read is not an error of the get:
    [GetFile] drops what [ReadFrom] returns and answers with the bytes
    delivered so far. *)
Example GetFile_drops_read_error :
  fst (GetFile (V := string) (ctx 0) "pipelines/p1"
         (newWorld (NewMinioObjectStore (memory.interrupted 4) "mlpipeline"
                                        "pipelines" false)
                   (memory.update memory.empty "mlpipeline" "pipelines/p1"
                                  (Some (list_byte_of_string "hello world")))))
  = inl (list_byte_of_string "hell").
Proof. reflexivity. Qed.

Lemma AddFile_GetFile_round_trip_witness :
  exists w1 w2,
    AddFile (ctx 0) (list_byte_of_string "hello world") "pipelines/p1"
            (demo.fresh "pipelines" true) = (None, w1) /\
    GetFile (ctx 1) "pipelines/p1" w1
    = (inl (list_byte_of_string "hello world"), w2).
Proof.
  apply AddFile_GetFile_round_trip.
  - exact memory_client_Faithful.
  - right. apply stripFacts.find_none. reflexivity.
Defined.

(** C3, as stated, fails: with [disableMultipart] set, on the in-memory
    store and with a codec that reads back what it writes, the scalar
    [abc;chunk-signature=def] is stored and what is read back into an
    empty target is the empty scalar. *)
Lemma yaml_round_trip_counterexample :
  Faithful memory.client /\
  RoundTrips lineCodec.codec "abc;chunk-signature=def"
    (list_byte_of_string ("abc;chunk-signature=def" ++ String lineCodec.lf "")) /\
  fst (AddAsYamlFile lineCodec.codec (ctx 0) "abc;chunk-signature=def"
         "pipelines/p1" (demo.fresh "pipelines" true)) = None /\
  fst (GetFromYamlFile lineCodec.codec (ctx 1) "" "pipelines/p1"
         (snd (AddAsYamlFile lineCodec.codec (ctx 0) "abc;chunk-signature=def"
                 "pipelines/p1" (demo.fresh "pipelines" true))))
  = ("", None) /\
  String.eqb "" "abc;chunk-signature=def" = false.
Proof.
  split; [exact memory_client_Faithful|].
  split; [now apply lineCodec_RoundTrips|].
  repeat split; reflexivity.
Qed.

Lemma AddAsYamlFile_GetFromYamlFile_round_trip_witness :
  exists w1 w2,
    AddAsYamlFile lineCodec.codec (ctx 0) "abc;chunk-signature=def"
                  "pipelines/p1" (demo.fresh "pipelines" false) = (None, w1) /\
    GetFromYamlFile lineCodec.codec (ctx 1) "" "pipelines/p1" w1
    = (("abc;chunk-signature=def", None), w2).
Proof.
  apply (AddAsYamlFile_GetFromYamlFile_round_trip
           lineCodec.codec (ctx 0) (ctx 1) "abc;chunk-signature=def" ""
           (list_byte_of_string
              ("abc;chunk-signature=def" ++ String lineCodec.lf ""))).
  - exact memory_client_Faithful.
  - apply lineCodec_RoundTrips. reflexivity.
  - left. reflexivity.
Defined.

Example AddFile_declared_size_example :
  trace (snd (AddFile (V := string) (ctx 0) (list_byte_of_string "0123456789")
                      "pipelines/p1" (demo.fresh "pipelines" true)))
  = [EvPutObject (ctx 0) "mlpipeline" "pipelines/p1"
                 (list_byte_of_string "0123456789") 10
                 {| minio.ContentType := "application/octet-stream" |}] /\
  trace (snd (AddFile (V := string) (ctx 0) (list_byte_of_string "0123456789")
                      "pipelines/p1" (demo.fresh "pipelines" false)))
  = [EvPutObject (ctx 0) "mlpipeline" "pipelines/p1"
                 (list_byte_of_string "0123456789") (-1)
                 {| minio.ContentType := "application/octet-stream" |}].
Proof. split; reflexivity. Qed.

Lemma client_failure_is_wrapped_witness :
  AddFile (ctx 0) (list_byte_of_string "data") "pipelines/p1"
          (demo.unreachable true)
  = (Some (NewInternalServerError memory.refused "Failed to store file %v"
                                  [ArgString "pipelines/p1"]),
     after (demo.unreachable true)
           (putEvent (self (demo.unreachable true)) (ctx 0)
                     (list_byte_of_string "data") "pipelines/p1") tt) /\
  GetFile (ctx 0) "pipelines/p1" (demo.unreachable true)
  = (inr (NewInternalServerError memory.refused "Failed to get file %v"
                                 [ArgString "pipelines/p1"]),
     after (demo.unreachable true)
           (getEvent (self (demo.unreachable true)) (ctx 0) "pipelines/p1") tt) /\
  DeleteFile (ctx 0) "pipelines/p1" (demo.unreachable true)
  = (Some (NewInternalServerError memory.refused "Failed to delete file %v"
                                  [ArgString "pipelines/p1"]),
     after (demo.unreachable true)
           (EvDeleteObject (ctx 0) "mlpipeline" "pipelines/p1") tt).
Proof.
  destruct (client_failure_is_wrapped
              (ctx 0) (list_byte_of_string "data") "pipelines/p1"
              (demo.unreachable true) memory.refused tt)
    as (Hput & Hget & Hdelete & _).
  split; [|split]; [apply Hput | apply Hget | apply Hdelete]; reflexivity.
Defined.

Lemma codec_failure_is_wrapped_witness :
  AddAsYamlFile lineCodec.codec (ctx 0) demo.twoLines "pipelines/p1"
                (demo.fresh "pipelines" true)
  = (Some (NewInternalServerError (ExternalError "line feed in a scalar")
             "Failed to marshal file %v: %v"
             [ArgString "pipelines/p1";
              ArgErrorText (ExternalError "line feed in a scalar")]),
     after (demo.fresh "pipelines" true) (EvMarshal demo.twoLines) memory.empty) /\
  fst (GetFromYamlFile lineCodec.codec (ctx 0) "before" "pipelines/p1"
         (demo.holding false "pipelines/p1" "no line feed"))
  = ("before",
     Some (NewInternalServerError (ExternalError "no line feed at the end")
             "Failed to unmarshal file %v: %v"
             [ArgString "pipelines/p1";
              ArgErrorText (ExternalError "no line feed at the end")])).
Proof.
  split.
  - destruct (codec_failure_is_wrapped
                lineCodec.codec (ctx 0) demo.twoLines "" ""
                [] "pipelines/p1" (demo.fresh "pipelines" true)
                (demo.fresh "pipelines" true)
                (ExternalError "line feed in a scalar")) as (Hm & _).
    destruct (Hm eq_refl) as [H _]. exact H.
  - destruct (codec_failure_is_wrapped
                lineCodec.codec (ctx 0) "" "before" "before"
                (list_byte_of_string "no line feed") "pipelines/p1"
                (demo.holding false "pipelines/p1" "no line feed")
                (snd (GetFile (ctx 0) "pipelines/p1"
                        (demo.holding false "pipelines/p1" "no line feed")))
                (ExternalError "no line feed at the end")) as (_ & Hu & _).
    rewrite Hu; reflexivity.
Defined.

Lemma GetFromYamlFile_read_failure_witness :
  GetFromYamlFile lineCodec.codec (ctx 0) "before" "pipelines/p1"
                  (demo.unreachable true)
  = (("before",
      Some (Wrap (NewInternalServerError memory.refused "Failed to get file %v"
                                         [ArgString "pipelines/p1"])
                 "Failed to read from a yaml file")),
     after (demo.unreachable true)
           (getEvent (self (demo.unreachable true)) (ctx 0) "pipelines/p1") tt) /\
  trace (after (demo.unreachable true)
               (getEvent (V := string) (self (demo.unreachable true)) (ctx 0)
                         "pipelines/p1") tt)
  = (trace (demo.unreachable true)
     ++ [getEvent (self (demo.unreachable true)) (ctx 0) "pipelines/p1"])%list.
Proof.
  apply (GetFromYamlFile_read_failure lineCodec.codec (ctx 0) "before"
           "pipelines/p1" (demo.unreachable true)).
  reflexivity.
Defined.

(** C10, as stated, fails for the empty id: with the empty base folder
    the key is the empty string, which is not the cleaned base folder
    (the dot); with the root as base folder the key is the root, which
    ends with a separator.  And an id with a [..] segment in it need not
    leave the base folder. *)
Lemma GetPipelineKey_empty_id_counterexample :
  fst (GetPipelineKey "" (demo.fresh "" false)) = "" /\
  path.Clean "" = "." /\
  fst (GetPipelineKey "" (demo.fresh "/" false)) = "/" /\
  Str.last (fst (GetPipelineKey "" (demo.fresh "/" false))) = Some "/"%char /\
  fst (GetPipelineKey "a/../b" (demo.fresh "pipelines" false)) = "pipelines/b".
Proof. repeat split; reflexivity. Qed.

Lemma GetPipelineKey_not_confined_witness :
  fst (GetPipelineKey "../abc/def" (demo.fresh "pipelines" false)) = "abc/def" /\
  fst (GetPipelineKey "" (demo.fresh "pipelines//v2/" false)) = "pipelines/v2".
Proof.
  destruct (GetPipelineKey_not_confined
              (demo.fresh "pipelines" false) "abc/def" memory.client "" false
              memory.empty []) as (Hescape & _).
  destruct (GetPipelineKey_not_confined
              (demo.fresh "pipelines//v2/" false) "" memory.client "" false
              memory.empty []) as (_ & _ & Hempty & _).
  split.
  - change "../abc/def" with ("../" ++ "abc/def").
    rewrite Hescape; [reflexivity | | discriminate | reflexivity].
    repeat split; discriminate.
  - rewrite Hempty; [reflexivity | discriminate].
Defined.

(* ================================================================== *)
(** * Further properties *)

(** ** Keys of well-formed folders and ids *)

Module keyFacts.
Import path Str StrFacts pathFacts.

Lemma copyElement_last (b : string) :
  noSlash b = true -> copyElement b = (b, "").
Proof.
  induction b as [|c b IH]; [reflexivity|]. simpl.
  intros H. apply andb_true_iff in H as [Hc Hb].
  apply negb_true_iff in Hc. now rewrite Hc, IH.
Qed.

(** What decides the case of the loop at the head of a plain element. *)
Lemma plainElement_head (c : ascii) (b' rest : string) :
  plainElement (String c b') ->
  endsElement rest = true ->
  Ascii.eqb c slash = false /\
  Ascii.eqb c dot && endsElement (b' ++ rest) = false /\
  isDotDot c (b' ++ rest) = false.
Proof.
  intros (_ & Hb & Hdot & Hdotdot) Hrest.
  simpl in Hb. apply andb_true_iff in Hb as [Hc Hb'].
  apply negb_true_iff in Hc. split; [assumption|]. split.
  - destruct (Ascii.eqb_spec c dot) as [->|]; [|reflexivity].
    destruct b' as [|c' b'']; [now destruct Hdot|].
    simpl in *. apply andb_true_iff in Hb' as [Hc' _].
    now apply negb_true_iff.
  - destruct b' as [|c' b'']; simpl.
    + destruct rest as [|x rest]; [reflexivity|]. simpl in Hrest.
      destruct (Ascii.eqb_spec x slash) as [->|]; [|discriminate].
      simpl. now rewrite andb_false_r.
    + destruct (Ascii.eqb_spec c dot) as [->|]; [|reflexivity].
      destruct (Ascii.eqb_spec c' dot) as [->|]; [|reflexivity].
      destruct b'' as [|c'' b3]; [now destruct Hdotdot|].
      simpl. exact (noSlash_get _ Hb' 1 c'' eq_refl).
Qed.

(** One iteration on a plain element that a slash follows, in any state
    of a path that is not rooted. *)
Lemma cleanLoop_element_slash (b rest out : string) (dotdot fuel : nat) :
  plainElement b ->
  cleanLoop (S fuel) false (b ++ "/" ++ rest) out dotdot
  = cleanLoop fuel false ("/" ++ rest) (addSlash false out ++ b) dotdot.
Proof.
  intros Hb.
  pose proof (copyElement_noSlash b rest (proj1 (proj2 Hb))) as Hcopy.
  destruct b as [|c b']; [now destruct (proj1 Hb)|].
  destruct (plainElement_head c b' ("/" ++ rest) Hb eq_refl) as (Hc & H1 & H2).
  change (String c b' ++ "/" ++ rest) with (String c (b' ++ "/" ++ rest)) in *.
  cbn [cleanLoop]. now rewrite Hc, H1, H2, Hcopy.
Qed.

(** The iteration on a plain element at the end of the path. *)
Lemma cleanLoop_element_end (b out : string) (dotdot fuel : nat) :
  plainElement b ->
  cleanLoop (S fuel) false b out dotdot = addSlash false out ++ b.
Proof.
  intros Hb.
  pose proof (copyElement_last b (proj1 (proj2 Hb))) as Hcopy.
  destruct b as [|c b']; [now destruct (proj1 Hb)|].
  destruct (plainElement_head c b' "" Hb eq_refl) as (Hc & H1 & H2).
  rewrite append_nil_r in H1, H2.
  cbn [cleanLoop]. rewrite Hc, H1, H2, Hcopy. now destruct fuel.
Qed.

Lemma addSlash_nonempty (out b : string) :
  b <> "" -> addSlash false (addSlash false out ++ b) = (addSlash false out ++ b) ++ "/".
Proof.
  intros Hb. unfold addSlash at 1. cbn [andb negb orb].
  rewrite length_append.
  destruct b as [|c b]; [congruence|]. simpl String.length.
  now rewrite Nat.add_succ_r.
Qed.

(** The loop of [Clean] copies a path made of plain elements. *)
Lemma cleanLoop_elements (es : list string) :
  Forall plainElement es -> es <> [] ->
  forall out dotdot fuel,
    String.length (joinElements es) <= fuel ->
    cleanLoop fuel false (joinElements es) out dotdot
    = addSlash false out ++ joinElements es.
Proof.
  induction es as [|e es IH]; intros Hes Hne out dotdot fuel Hfuel; [congruence|].
  inversion Hes as [|? ? He Hes']; subst. clear Hne.
  assert (Hlen : 0 < String.length e)
    by (destruct e; [now destruct (proj1 He) | simpl; lia]).
  destruct es as [|e' es].
  - change (joinElements [e]) with e in *.
    destruct fuel as [|fuel]; [lia|].
    now apply cleanLoop_element_end.
  - change (joinElements (e :: e' :: es))
      with (e ++ "/" ++ joinElements (e' :: es)) in *.
    rewrite !length_append in Hfuel. simpl in Hfuel.
    destruct fuel as [|[|fuel]]; [lia | lia |].
    rewrite cleanLoop_element_slash by assumption.
    change (cleanLoop (S fuel) false ("/" ++ joinElements (e' :: es))
                      (addSlash false out ++ e) dotdot)
      with (cleanLoop fuel false (joinElements (e' :: es))
                      (addSlash false out ++ e) dotdot).
    rewrite IH; [| assumption | discriminate | lia].
    rewrite addSlash_nonempty by (destruct e; [simpl in Hlen; lia | discriminate]).
    now rewrite !append_assoc.
Qed.

(** [Clean] leaves a path made of plain elements as it is. *)
Lemma Clean_elements (es : list string) :
  Forall plainElement es -> es <> [] -> Clean (joinElements es) = joinElements es.
Proof.
  intros Hes Hne.
  pose proof (cleanLoop_elements es Hes Hne "" 0 _ (Nat.le_refl _)) as Hloop.
  destruct es as [|e es]; [congruence|].
  inversion Hes as [|? ? He _]; subst.
  destruct He as (He & Hs & _).
  assert (Hj : exists c r, joinElements (e :: es) = String c r /\
                           Ascii.eqb c slash = false).
  { destruct e as [|c e']; [congruence|].
    simpl in Hs. apply andb_true_iff in Hs as [Hc _].
    apply negb_true_iff in Hc.
    unfold joinElements. destruct es; simpl; eauto. }
  destruct Hj as (c & r & Hj & Hc). rewrite Hj in *.
  unfold Clean. cbv zeta. rewrite Hc, Hloop. reflexivity.
Qed.

Lemma joinElements_app (bs ids : list string) :
  bs <> [] -> ids <> [] ->
  joinElements (bs ++ ids) = joinElements bs ++ "/" ++ joinElements ids.
Proof.
  intros Hb Hi. induction bs as [|b bs IH]; [congruence|].
  destruct bs as [|b' bs].
  - destruct ids; [congruence | reflexivity].
  - change (joinElements ((b :: b' :: bs) ++ ids))
      with (b ++ "/" ++ joinElements ((b' :: bs) ++ ids)).
    rewrite IH by discriminate.
    change (joinElements (b :: b' :: bs)) with (b ++ "/" ++ joinElements (b' :: bs)).
    now rewrite !append_assoc.
Qed.

Lemma joinElements_nonempty (es : list string) :
  Forall plainElement es -> es <> [] -> joinElements es <> "".
Proof.
  intros Hes Hne. destruct es as [|e es]; [congruence|].
  inversion Hes as [|? ? (He & _) _]; subst.
  destruct e; [congruence|]. destruct es; discriminate.
Qed.

(** [Join] of a folder and an id that are made of plain elements. *)
Lemma Join_elements (bs ids : list string) :
  Forall plainElement bs -> Forall plainElement ids -> ids <> [] ->
  Join [joinElements bs; joinElements ids] = joinElements (bs ++ ids).
Proof.
  intros Hbs Hids Hne.
  pose proof (joinElements_nonempty ids Hids Hne) as Hid.
  assert (Hsize : (fold_left (fun n e => n + String.length e)
                             [joinElements bs; joinElements ids] 0 =? 0)%nat
                  = false).
  { apply Nat.eqb_neq. cbn [fold_left].
    destruct (joinElements ids); [congruence | simpl; lia]. }
  unfold Join. rewrite Hsize.
  destruct bs as [|b bs].
  - assert (Hbuf : joinBuf "" [joinElements []; joinElements ids]
                   = joinElements ids).
    { change (joinElements []) with "".
      destruct (joinElements ids); [congruence | reflexivity]. }
    rewrite Hbuf. now apply Clean_elements.
  - pose proof (joinElements_nonempty (b :: bs) Hbs ltac:(discriminate)) as Hb.
    assert (Hbuf : joinBuf "" [joinElements (b :: bs); joinElements ids]
                   = joinElements ((b :: bs) ++ ids)).
    { rewrite joinElements_app by (assumption || discriminate).
      destruct (joinElements (b :: bs)) as [|c r]; [congruence|].
      simpl. now rewrite append_assoc. }
    rewrite Hbuf. apply Clean_elements; [|discriminate].
    apply Forall_app. auto.
Qed.

(** *** The shape of what [Clean] and [Join] return *)

Lemma Clean_initial (c : ascii) (r1 : string) :
  exists out dotdot,
    (if Ascii.eqb c slash
     then cleanLoop (String.length (String c r1)) (Ascii.eqb c slash) r1 "/" 1
     else cleanLoop (String.length (String c r1)) (Ascii.eqb c slash)
                    (String c r1) "" 0) = out /\
    CleanInv (Ascii.eqb c slash) out dotdot.
Proof.
  destruct (Ascii.eqb c slash).
  - destruct (cleanLoop_inv true (String.length (String c r1)) r1 "/" 1)
      as [dd Hdd]; [|eauto].
    split; simpl; auto; discriminate.
  - destruct (cleanLoop_inv false (String.length (String c r1))
                            (String c r1) "" 0) as [dd Hdd]; [|eauto].
    split; simpl; auto; discriminate.
Qed.

Lemma Clean_noDoubleSlash (p : string) : noDoubleSlash (Clean p) = true.
Proof.
  destruct p as [|c r1]; [reflexivity|]. unfold Clean. cbv zeta.
  destruct (Clean_initial c r1) as (out & dd & -> & Hinv).
  destruct (String.length out =? 0)%nat; [reflexivity|].
  apply (inv_double _ _ _ Hinv).
Qed.

Lemma Clean_nonempty (p : string) : Clean p <> "".
Proof.
  destruct p as [|c r1]; [discriminate|]. unfold Clean. cbv zeta.
  destruct (Clean_initial c r1) as (out & dd & -> & _).
  destruct out; simpl; discriminate.
Qed.

Lemma startsWithSlash_take (n : nat) (s : string) :
  startsWithSlash s = false -> startsWithSlash (take n s) = false.
Proof. destruct n, s; simpl; auto. Qed.

Lemma startsWithSlash_append (s t : string) :
  s <> "" -> startsWithSlash (s ++ t) = startsWithSlash s.
Proof. destruct s; [congruence | reflexivity]. Qed.

(** The loop on a path that is not rooted never puts a slash at the head
    of the buffer. *)
Lemma cleanLoop_unrooted :
  forall fuel rest out dotdot,
    startsWithSlash out = false ->
    startsWithSlash (cleanLoop fuel false rest out dotdot) = false.
Proof.
  induction fuel as [|fuel IH]; intros rest out dotdot Hout; [assumption|].
  destruct rest as [|c r1]; [assumption|]. cbn [cleanLoop].
  destruct (Ascii.eqb c slash) eqn:Hc; [now apply IH|].
  destruct (Ascii.eqb c dot && endsElement r1); [now apply IH|].
  destruct (isDotDot c r1).
  - destruct (dotdot <? String.length out)%nat.
    + apply IH. now apply startsWithSlash_take.
    + cbn [negb]. apply IH. destruct out as [|x out]; [reflexivity|].
      simpl in *. assumption.
  - pose proof (copyElement_element c r1 Hc) as [Hne He].
    destruct (copyElement (String c r1)) as [e r']. simpl in Hne, He.
    apply IH. unfold addSlash. cbn [andb negb orb].
    destruct out as [|x out]; simpl.
    + now apply noSlash_start.
    + simpl in Hout. assumption.
Qed.

Lemma Clean_rooted (p : string) :
  p <> "" -> startsWithSlash (Clean p) = startsWithSlash p.
Proof.
  destruct p as [|c r1]; [congruence|]. intros _. unfold Clean. cbv zeta.
  simpl startsWithSlash at 2.
  destruct (Ascii.eqb c slash) eqn:Hc.
  - destruct (cleanLoop_inv true (String.length (String c r1)) r1 "/" 1)
      as [dd Hinv]; [split; simpl; auto; discriminate|].
    destruct (inv_rooted _ _ _ Hinv eq_refl) as [_ Hg].
    destruct (cleanLoop _ true r1 "/" 1) as [|x out]; [discriminate|].
    simpl in *. injection Hg as ->. reflexivity.
  - pose proof (cleanLoop_unrooted (String.length (String c r1))
                                   (String c r1) "" 0 eq_refl) as H.
    destruct (cleanLoop _ false (String c r1) "" 0); [reflexivity|].
    simpl in *. assumption.
Qed.

(** What [Join] of two elements is, by cases on the first. *)
Lemma Join_two (base id : string) :
  Join [base; id] =
  if String.eqb base "" then (if String.eqb id "" then "" else Clean id)
  else Clean (base ++ "/" ++ id).
Proof.
  unfold Join. destruct base as [|c base].
  - destruct id as [|x id]; reflexivity.
  - assert (Hsize : (fold_left (fun n e => n + String.length e)
                               [String c base; id] 0 =? 0)%nat = false)
      by (apply Nat.eqb_neq; simpl; lia).
    rewrite Hsize. simpl joinBuf. simpl String.eqb.
    now rewrite append_assoc.
Qed.

Lemma Join_rooted (base id : string) :
  startsWithSlash (Join [base; id])
  = startsWithSlash (if String.eqb base "" then id else base).
Proof.
  rewrite Join_two. destruct base as [|c base].
  - destruct id as [|x id]; [reflexivity|]. simpl String.eqb. cbv iota.
    now apply Clean_rooted.
  - simpl String.eqb. cbv iota.
    change (String c base ++ "/" ++ id) with (String c (base ++ "/" ++ id)).
    rewrite Clean_rooted by discriminate. reflexivity.
Qed.

Lemma Join_shape (base id : string) :
  noDoubleSlash (Join [base; id]) = true /\
  (last (Join [base; id]) = Some slash -> Join [base; id] = "/") /\
  (Join [base; id] = "" <-> base = "" /\ id = "").
Proof.
  rewrite Join_two. destruct base as [|c base]; simpl String.eqb; cbv iota.
  - destruct id as [|x id]; simpl String.eqb; cbv iota.
    + repeat split; auto; discriminate.
    + split; [apply Clean_noDoubleSlash|]. split; [apply Clean_trailing|].
      split; [intros H; now destruct (Clean_nonempty _ H) | intros [_ H]; discriminate].
  - split; [apply Clean_noDoubleSlash|]. split; [apply Clean_trailing|].
    split; [intros H; now destruct (Clean_nonempty _ H) | intros [H _]; discriminate].
Qed.

(** *** Plain elements after any folder *)

Lemma endsElement_app (r x : string) :
  endsElement (r ++ "/" ++ x) = endsElement r.
Proof. destruct r; reflexivity. Qed.

Lemma isDotDot_app (c : ascii) (r x : string) :
  isDotDot c (r ++ "/" ++ x) = isDotDot c r.
Proof.
  destruct r as [|c' r]; simpl.
  - now rewrite andb_false_r.
  - change (String "/" x) with ("/" ++ x). now rewrite endsElement_app.
Qed.

Lemma tail_app (c : ascii) (r y : string) :
  isDotDot c r = true -> tail (r ++ y) = tail r ++ y.
Proof. destruct r; simpl; [discriminate | reflexivity]. Qed.

Lemma copyElement_app (rest x : string) :
  copyElement (rest ++ "/" ++ x)
  = (fst (copyElement rest), snd (copyElement rest) ++ "/" ++ x).
Proof.
  induction rest as [|c rest IH]; [reflexivity|].
  change (String c rest ++ "/" ++ x) with (String c (rest ++ "/" ++ x)).
  cbn [copyElement]. destruct (Ascii.eqb c slash); [reflexivity|].
  rewrite IH. destruct (copyElement rest); reflexivity.
Qed.

Lemma cleanLoop_last_element (rooted : bool) (b out : string)
      (dotdot fuel : nat) :
  plainElement b ->
  cleanLoop (S fuel) rooted b out dotdot = addSlash rooted out ++ b.
Proof.
  intros Hb.
  pose proof (copyElement_last b (proj1 (proj2 Hb))) as Hcopy.
  destruct b as [|c b']; [now destruct (proj1 Hb)|].
  destruct (plainElement_head c b' "" Hb eq_refl) as (Hc & H1 & H2).
  rewrite append_nil_r in H1, H2.
  cbn [cleanLoop]. rewrite Hc, H1, H2, Hcopy. now destruct fuel.
Qed.

(** The loop on a folder, a slash and a plain element: the element is
    appended to what the loop makes of the folder. *)
Lemma cleanLoop_then_element (rooted : bool) (e : string) :
  plainElement e ->
  forall fuel a out dotdot,
    String.length (a ++ "/" ++ e) <= fuel ->
    cleanLoop fuel rooted (a ++ "/" ++ e) out dotdot
    = addSlash rooted (cleanLoop fuel rooted a out dotdot) ++ e.
Proof.
  intros He.
  assert (Hlen : 0 < String.length e)
    by (destruct e; [now destruct (proj1 He) | simpl; lia]).
  induction fuel as [|fuel IH]; intros a out dotdot Hfuel;
    rewrite length_append in Hfuel; simpl in Hfuel; [lia|].
  destruct a as [|c r1].
  - change ("" ++ "/" ++ e) with (String slash e). cbn [cleanLoop].
    rewrite Ascii.eqb_refl.
    destruct fuel as [|fuel]; [simpl in Hfuel; lia|].
    now apply cleanLoop_last_element.
  - simpl in Hfuel.
    change (String c r1 ++ "/" ++ e) with (String c (r1 ++ "/" ++ e)).
    cbn [cleanLoop]. rewrite endsElement_app, isDotDot_app.
    assert (Hr1 : String.length (r1 ++ "/" ++ e) <= fuel)
      by (rewrite length_append; simpl; lia).
    destruct (Ascii.eqb c slash) eqn:Hc; [now apply IH|].
    destruct (Ascii.eqb c dot && endsElement r1); [now apply IH|].
    pose proof (length_tail r1) as Ht.
    destruct (isDotDot c r1) eqn:Hdd.
    + rewrite (tail_app _ _ _ Hdd).
      assert (Hr2 : String.length (tail r1 ++ "/" ++ e) <= fuel)
        by (rewrite length_append; simpl; lia).
      destruct (dotdot <? String.length out)%nat; [now apply IH|].
      destruct (negb rooted); now apply IH.
    + change (String c (r1 ++ "/" ++ e)) with (String c r1 ++ "/" ++ e).
      rewrite copyElement_app.
      pose proof (copyElement_shorter c r1 Hc) as Hs.
      destruct (copyElement (String c r1)) as [x r']. simpl in Hs.
      cbn [fst snd]. apply IH. rewrite length_append. simpl. lia.
Qed.

Lemma addSlash_after_element (rooted : bool) (out e : string) (dotdot : nat) :
  CleanInv rooted out dotdot -> e <> "" ->
  addSlash rooted (addSlash rooted out ++ e) = (addSlash rooted out ++ e) ++ "/".
Proof.
  intros Hinv He.
  assert (Hlen : 2 <= String.length (addSlash rooted out ++ e)
                 \/ (rooted = false /\ 1 <= String.length (addSlash rooted out ++ e))).
  { rewrite length_append.
    assert (0 < String.length e) by (destruct e; [congruence | simpl; lia]).
    destruct rooted; [left | right; split; [reflexivity | lia]].
    destruct (inv_rooted _ _ _ Hinv eq_refl) as [_ Hg].
    unfold addSlash.
    destruct out as [|x out]; [discriminate|].
    destruct (_ || _); rewrite ?length_append; simpl; lia. }
  unfold addSlash at 1.
  destruct Hlen as [H2 | [-> H1]].
  - destruct rooted; cbn [andb negb orb].
    + destruct (Nat.eqb_spec (String.length (addSlash true out ++ e)) 1);
        [lia | reflexivity].
    + destruct (Nat.eqb_spec (String.length (addSlash false out ++ e)) 0);
        [lia | reflexivity].
  - cbn [andb negb orb].
    destruct (Nat.eqb_spec (String.length (addSlash false out ++ e)) 0);
      [lia | reflexivity].
Qed.

(** The same for several plain elements. *)
Lemma cleanLoop_then_elements (rooted : bool) (ids : list string) :
  Forall plainElement ids -> ids <> [] ->
  forall fuel a out dotdot,
    CleanInv rooted out dotdot ->
    String.length (a ++ "/" ++ joinElements ids) <= fuel ->
    cleanLoop fuel rooted (a ++ "/" ++ joinElements ids) out dotdot
    = addSlash rooted (cleanLoop fuel rooted a out dotdot) ++ joinElements ids.
Proof.
  induction ids as [|e ids IH]; intros Hids Hne fuel a out dotdot Hinv Hfuel;
    [congruence|].
  inversion Hids as [|? ? He Hids']; subst. clear Hne.
  destruct ids as [|e' ids].
  - change (joinElements [e]) with e in *. now apply cleanLoop_then_element.
  - change (joinElements (e :: e' :: ids))
      with (e ++ "/" ++ joinElements (e' :: ids)) in *.
    assert (Hassoc : a ++ "/" ++ e ++ "/" ++ joinElements (e' :: ids)
                     = (a ++ "/" ++ e) ++ "/" ++ joinElements (e' :: ids))
      by (now rewrite !append_assoc).
    rewrite Hassoc in *.
    rewrite IH; [| assumption | discriminate | assumption | assumption].
    rewrite cleanLoop_then_element; [|assumption|].
    + destruct (cleanLoop_inv rooted fuel a out dotdot Hinv) as [dd Hinv'].
      rewrite (addSlash_after_element rooted _ e dd Hinv')
        by (destruct e; [now destruct (proj1 He) | discriminate]).
      now rewrite !append_assoc.
    + rewrite !length_append in *. simpl in *. lia.
Qed.

(** The key of an id made of plain elements is the folder part of the
    base folder followed by the id. *)
Lemma Join_keyFolder (base : string) (ids : list string) :
  Forall plainElement ids -> ids <> [] ->
  Join [base; joinElements ids] = keyFolder base ++ joinElements ids.
Proof.
  intros Hids Hne.
  pose proof (joinElements_nonempty ids Hids Hne) as Hid.
  rewrite Join_two. destruct base as [|c r1].
  - simpl String.eqb. cbv iota.
    destruct (String.eqb_spec (joinElements ids) ""); [congruence|].
    now apply Clean_elements.
  - simpl String.eqb. cbv iota.
    change (String c r1 ++ "/" ++ joinElements ids)
      with (String c (r1 ++ "/" ++ joinElements ids)).
    assert (Hlen : String.length (String c (r1 ++ "/" ++ joinElements ids))
                   >= String.length (String c r1))
      by (simpl; rewrite length_append; lia).
    unfold Clean, keyFolder. cbv zeta.
    destruct (Ascii.eqb c slash) eqn:Hc.
    + rewrite (cleanLoop_then_elements true ids Hids Hne);
        [| split; simpl; auto; discriminate | simpl; lia].
      rewrite (cleanLoop_fuel true _ (String.length (String c r1)))
        by (simpl in *; lia).
      destruct (addSlash true _ ++ joinElements ids) as [|x k] eqn:E;
        [|reflexivity].
      apply append_eq_nil in E as [_ E]. congruence.
    + change (String c (r1 ++ "/" ++ joinElements ids))
        with (String c r1 ++ "/" ++ joinElements ids).
      rewrite (cleanLoop_then_elements false ids Hids Hne);
        [| split; simpl; auto; discriminate | lia].
      rewrite (cleanLoop_fuel false _ (String.length (String c r1)))
        by (simpl in *; rewrite ?length_append in *; simpl in *; lia).
      destruct (addSlash false _ ++ joinElements ids) as [|x k] eqn:E;
        [|reflexivity].
      apply append_eq_nil in E as [_ E]. congruence.
Qed.

(** The folder part is empty or ends with a slash. *)
Lemma keyFolder_shape (base : string) :
  keyFolder base = "" \/ last (keyFolder base) = Some slash.
Proof.
  destruct base as [|c r1]; [now left|]. unfold keyFolder.
  assert (H : forall rooted out dd,
             CleanInv rooted out dd ->
             addSlash rooted out = "" \/ last (addSlash rooted out) = Some slash).
  { intros rooted out dd Hinv. unfold addSlash.
    destruct rooted; cbn [andb negb orb].
    - destruct (inv_rooted _ _ _ Hinv eq_refl) as [_ Hg].
      destruct (Nat.eqb_spec (String.length out) 1) as [H1|H1]; cbn [negb].
      + right. destruct out as [|x [|y out]]; simpl in *; try discriminate.
        now injection Hg as ->.
      + right. apply last_snoc.
    - destruct (Nat.eqb_spec (String.length out) 0) as [H0|H0]; cbn [negb].
      + left. now destruct out.
      + right. apply last_snoc. }
  destruct (Ascii.eqb c slash).
  - destruct (cleanLoop_inv true (String.length (String c r1)) r1 "/" 1)
      as [dd Hinv]; [split; simpl; auto; discriminate|]. eauto.
  - destruct (cleanLoop_inv false (String.length (String c r1))
                            (String c r1) "" 0)
      as [dd Hinv]; [split; simpl; auto; discriminate|]. eauto.
Qed.

End keyFacts.

(** ** What the stripping leaves *)

Module stripMore.
Import regexp regexpFacts stripFacts StrFacts.

Lemma Stripped_length (s out : string) :
  Stripped s out ->
  String.length out <= String.length s /\
  (Contains s -> String.length out < String.length s).
Proof.
  induction 1 as [s Hno | u m rest out Hm Hrest Hleft Hrec [IH _]].
  - split; [lia | intros H; now destruct (Hno H)].
  - apply chunkSignature_nonempty in Hm.
    rewrite !length_append. split; [lia | intros _; lia].
Qed.

Lemma Stripped_startsWithWord (s out : string) :
  Stripped s out -> startsWithWord s = false -> startsWithWord out = false.
Proof.
  destruct 1 as [s Hno | u m rest out Hm Hrest Hleft Hrec]; [auto|].
  destruct u as [|c u]; [|auto].
  destruct Hm as (w1 & w2 & Hw1 & _ & ->). simpl.
  rewrite !append_assoc, startsWithWord_append by assumption. discriminate.
Qed.

Lemma MatchAtHead_matchHere (s : string) :
  MatchAtHead s <-> matchHere s <> None.
Proof.
  split.
  - intros H. apply matchHere_complete in H as [a ->]. discriminate.
  - destruct (matchHere s) as [a|] eqn:E; [intros _ | congruence].
    apply matchHere_sound in E as (m & Hm & -> & _). now exists m, a.
Qed.

(** Nothing that stands before the first match ends with a word
    character. *)
Lemma before_match_last (u m rest : string) (c : ascii) :
  ChunkSignature m ->
  (forall u1 u2, u = u1 ++ u2 -> u2 <> "" -> ~ MatchAtHead (u2 ++ m ++ rest)) ->
  Str.last u = Some c -> isWordChar c = false.
Proof.
  intros Hm Hleft Hlast. destruct (isWordChar c) eqn:Hc; [|reflexivity].
  exfalso.
  assert (Hu : exists u1, u = u1 ++ String c "").
  { clear - Hlast. induction u as [|x u IH]; [discriminate|].
    destruct u as [|y u].
    - injection Hlast as ->. now exists "".
    - destruct (IH Hlast) as [u1 Hu1]. exists (String x u1).
      simpl. now rewrite <- Hu1. }
  destruct Hu as [u1 Hu].
  apply (Hleft u1 (String c "") Hu); [discriminate|].
  destruct Hm as (w1 & w2 & [Hne Hw1] & Hw2 & ->).
  exists (String c w1 ++ chunkSignatureLiteral ++ w2), rest. split.
  - exists (String c w1), w2. split; [|split; [assumption | reflexivity]].
    split; [discriminate | simpl; now rewrite Hc, Hw1].
  - reflexivity.
Qed.

Lemma skipWord_before (u x : string) (c : ascii) :
  Str.last u = Some c -> isWordChar c = false ->
  skipWord (u ++ x) = skipWord u ++ x /\
  Str.last (skipWord u) = Some c.
Proof.
  intros Hlast Hc. induction u as [|y u IH]; [discriminate|].
  simpl. destruct (isWordChar y) eqn:Hy.
  - destruct u as [|z u]; [injection Hlast as ->; congruence|].
    apply IH. exact Hlast.
  - split; [reflexivity | assumption].
Qed.

(** A proper cut of the literal after a byte that is not a word
    character is followed by a word character. *)
Lemma literal_cut (e f : string) (c : ascii) :
  chunkSignatureLiteral = e ++ f -> f <> "" ->
  Str.last e = Some c -> isWordChar c = false ->
  startsWithWord f = true.
Proof.
  unfold chunkSignatureLiteral. intros H Hf Hlast Hc.
  do 18 (destruct e as [|? e];
         [ simpl in H; subst f; simpl in Hlast;
           try discriminate Hlast; injection Hlast as <-;
           first [ discriminate Hc | reflexivity | congruence ]
         | simpl in H; first [ injection H as <- H | discriminate H ] ]).
Qed.

(** A match that starts in a text ending with a byte that is not a word
    character, before a continuation that does not start with a word
    character, lies within that text: it is there whatever follows. *)
Lemma match_within (u x y : string) (c : ascii) :
  Str.last u = Some c -> isWordChar c = false ->
  startsWithWord x = false ->
  matchHere (u ++ x) <> None -> matchHere (u ++ y) <> None.
Proof.
  intros Hlast Hc Hx H.
  assert (Hne : u <> "") by (destruct u; [discriminate | discriminate]).
  assert (Hstart : forall z, startsWithWord (u ++ z) = startsWithWord u)
    by (intros z; destruct u; [congruence | reflexivity]).
  destruct (skipWord_before u x c Hlast Hc) as [Hsx Hl].
  destruct (skipWord_before u y c Hlast Hc) as [Hsy _].
  unfold matchHere in *. rewrite Hstart in *. rewrite Hsx in H. rewrite Hsy.
  destruct (startsWithWord u); [|congruence].
  destruct (stripPrefix chunkSignatureLiteral (skipWord u ++ x)) as [r|] eqn:E;
    [|congruence].
  apply stripPrefix_spec in E.
  destruct (append_eq_split _ _ _ _ E) as [g [[Hlit Hxr] | [Hv Hr]]].
  - (* the literal ends in [x] *)
    exfalso. destruct g as [|b g].
    + subst x. simpl in Hx. rewrite Hx in H. congruence.
    + assert (Hw : startsWithWord (String b g) = true)
        by (apply (literal_cut (skipWord u) (String b g) c); auto; discriminate).
      rewrite Hxr in Hx. simpl in Hx, Hw. congruence.
  - (* the literal ends in [u] *)
    subst r. destruct g as [|b g].
    + simpl in H. rewrite Hx in H. congruence.
    + rewrite Hv, append_assoc.
      assert (Hs : stripPrefix chunkSignatureLiteral
                     (chunkSignatureLiteral ++ String b g ++ y)
                   = Some (String b g ++ y)) by now apply stripPrefix_spec.
      rewrite Hs. simpl in *. destruct (isWordChar b); congruence.
Qed.

(** What is left after the stripping has no match in it. *)
Lemma Stripped_no_match (s out : string) :
  Stripped s out -> ~ Contains out.
Proof.
  induction 1 as [s Hno | u m rest out Hm Hrest Hleft Hrec IH]; [assumption|].
  intros (pre & m' & post & Hm' & Hs).
  destruct (append_eq_split _ _ _ _ Hs) as [e [[Hp Ho] | [Hu Hmp]]].
  - apply IH. exists e, m', post. auto.
  - destruct e as [|b e].
    + apply IH. exists "", m', post. simpl in Hmp. auto.
    + assert (Hl : exists c, Str.last u = Some c).
      { rewrite Hu, last_append by discriminate. clear.
        generalize b. induction e as [|x e IHe]; intros b0; simpl; eauto. }
      destruct Hl as [c Hl].
      pose proof (before_match_last u m rest c Hm Hleft Hl) as Hc.
      assert (Hle : Str.last (String b e) = Some c)
        by (rewrite Hu, last_append in Hl by discriminate; exact Hl).
      apply (Hleft pre (String b e) Hu); [discriminate|].
      apply MatchAtHead_matchHere.
      apply (match_within (String b e) out (m ++ rest) c Hle Hc).
      * now apply (Stripped_startsWithWord rest).
      * apply MatchAtHead_matchHere. exists m', post. auto.
Qed.

Lemma ReplaceAllString_idempotent (s : string) :
  ReplaceAllString chunkSignatureRe
    (ReplaceAllString chunkSignatureRe s "") ""
  = ReplaceAllString chunkSignatureRe s "".
Proof.
  apply ReplaceAllString_no_match.
  apply (Stripped_no_match s), ReplaceAllString_Stripped.
Qed.

(** *** Bytes and strings *)

Lemma length_list_byte_of_string (s : string) :
  List.length (list_byte_of_string s) = String.length s.
Proof.
  unfold list_byte_of_string. rewrite length_map.
  induction s as [|c s IH]; simpl; [reflexivity | now rewrite IH].
Qed.

Lemma length_string_of_list_byte (b : bytes) :
  String.length (string_of_list_byte b) = List.length b.
Proof.
  rewrite <- length_list_byte_of_string.
  now rewrite list_byte_of_string_of_list_byte.
Qed.

Lemma list_byte_of_string_append (a b : string) :
  list_byte_of_string (a ++ b)
  = (list_byte_of_string a ++ list_byte_of_string b)%list.
Proof.
  unfold list_byte_of_string. rewrite <- map_app. f_equal.
  induction a as [|c a IH]; simpl; [reflexivity | now rewrite IH].
Qed.

(** A text with a match in it has a semicolon in it. *)
Lemma Contains_semicolon (b : bytes) :
  Contains (string_of_list_byte b) -> In semicolon b.
Proof.
  intros (pre & m & post & (w1 & w2 & _ & _ & ->) & Hs).
  apply (f_equal list_byte_of_string) in Hs.
  rewrite list_byte_of_string_of_list_byte in Hs.
  rewrite !list_byte_of_string_append in Hs. rewrite Hs.
  apply in_or_app. right. apply in_or_app. left.
  apply in_or_app. right. apply in_or_app. left. left. reflexivity.
Qed.

End stripMore.

(** ** Further properties of the adapter *)

Section AdapterMore.

Context {S V : Type}.
Variable yaml : YamlCodec V.

Lemma GetPipelineKey_run (pipelineID : string) (w : World S V) :
  GetPipelineKey pipelineID w = (path.Join [baseFolder (self w); pipelineID], w).
Proof. reflexivity. Qed.

(** A put followed by a get of the same key, on a faithful store: what
    comes back is the blob, stripped when the flag is set. *)
Lemma put_then_get_stripped (c c' : Context) (b : bytes) (p : string)
      (w : World S V) :
  Faithful (minioClient (self w)) ->
  exists w1 w2,
    AddFile c b p w = (None, w1) /\
    GetFile c' p w1
    = (inl (if disableMultipart (self w)
            then list_byte_of_string
                   (regexp.ReplaceAllString chunkSignatureRe
                                            (string_of_list_byte b) "")
            else b), w2).
Proof.
  intros Hf.
  destruct (Hf c (bucketName (self w)) p b
               (if disableMultipart (self w) then Z.of_nat (List.length b)
                else (-1)%Z)
               {| minio.ContentType := "application/octet-stream" |} (store w))
    as (s1 & Hput & Hget).
  { unfold multipartDefaultSize, len.
    destruct (disableMultipart (self w)); auto. }
  destruct (Hget c' minio.GetObjectOptions0) as (reader & s2 & Hg & Hd).
  do 2 eexists. split.
  - rewrite AddFile_run. cbv zeta. rewrite Hput. reflexivity.
  - rewrite GetFile_run. cbv zeta. simpl self. simpl store.
    rewrite Hg. cbn [fst snd]. rewrite Hd. reflexivity.
Qed.

(** X1: for a base folder and a pipeline id that are made of plain
    elements (not empty, without a slash, neither a dot nor two dots)
    joined by slashes, the id having at least one, [GetPipelineKey] is
    the elements of the folder followed by those of the id, joined by
    slashes: the folder, a slash and the id, or the id alone for the
    empty folder. *)
Theorem GetPipelineKey_of_elements
    (bs ids : list string) (w : World S V) :
  Forall plainElement bs -> Forall plainElement ids -> ids <> [] ->
  baseFolder (self w) = joinElements bs ->
  fst (GetPipelineKey (joinElements ids) w) = joinElements (bs ++ ids).
Proof.
  intros Hbs Hids Hne Hbase. rewrite GetPipelineKey_run. cbn [fst].
  rewrite Hbase. now apply keyFacts.Join_elements.
Qed.

(** X2: whatever the base folder, two pipeline ids made of plain
    elements that get the same key are the same id. *)
Theorem GetPipelineKey_injective
    (ids ids' : list string) (w : World S V) :
  Forall plainElement ids -> ids <> [] ->
  Forall plainElement ids' -> ids' <> [] ->
  fst (GetPipelineKey (joinElements ids) w)
  = fst (GetPipelineKey (joinElements ids') w) ->
  joinElements ids = joinElements ids'.
Proof.
  intros Hids Hne Hids' Hne'. rewrite !GetPipelineKey_run. cbn [fst].
  rewrite !keyFacts.Join_keyFolder by assumption.
  apply StrFacts.append_inv_head.
Qed.

(** X12: whatever the base folder, the key of a pipeline id made of
    plain elements is the id after a folder part that the base folder
    alone decides, and that is empty or ends with a slash: such an id
    stays under the cleaned base folder. *)
Theorem GetPipelineKey_under_folder
    (ids : list string) (w : World S V) :
  Forall plainElement ids -> ids <> [] ->
  fst (GetPipelineKey (joinElements ids) w)
  = keyFolder (baseFolder (self w)) ++ joinElements ids /\
  (keyFolder (baseFolder (self w)) = "" \/
   Str.last (keyFolder (baseFolder (self w))) = Some "/"%char).
Proof.
  intros Hids Hne. rewrite GetPipelineKey_run. cbn [fst]. split.
  - now apply keyFacts.Join_keyFolder.
  - apply keyFacts.keyFolder_shape.
Qed.

(** X3: whatever the base folder and the pipeline id, the key has no two
    slashes in a row, ends with a slash only when it is the root, and is
    empty exactly when the base folder and the id are both empty. *)
Theorem GetPipelineKey_shape (pipelineID : string) (w : World S V) :
  let key := fst (GetPipelineKey pipelineID w) in
  noDoubleSlash key = true /\
  (Str.last key = Some "/"%char -> key = "/") /\
  (key = "" <-> baseFolder (self w) = "" /\ pipelineID = "").
Proof.
  cbv zeta. rewrite GetPipelineKey_run. cbn [fst].
  apply keyFacts.Join_shape.
Qed.

(** X4: the key starts with a slash exactly when the base folder does,
    or, for the empty base folder, when the pipeline id does: an id that
    starts with a slash does not replace a base folder that is not
    empty. *)
Theorem GetPipelineKey_rooted (pipelineID : string) (w : World S V) :
  startsWithSlash (fst (GetPipelineKey pipelineID w))
  = startsWithSlash (if String.eqb (baseFolder (self w)) ""
                     then pipelineID else baseFolder (self w)).
Proof.
  rewrite GetPipelineKey_run. cbn [fst]. apply keyFacts.Join_rooted.
Qed.

(** X5: with [disableMultipart] set, what [GetFile] returns has no
    substring that matches the chunk-signature pattern, so stripping it
    again changes nothing. *)
Theorem GetFile_result_has_no_signature
    (c : Context) (filePath : string) (w : World S V)
    (reader : minio.Object) (s' : S) :
  GetObject (minioClient (self w)) c (bucketName (self w)) filePath
            minio.GetObjectOptions0 (store w) = (inl reader, s') ->
  disableMultipart (self w) = true ->
  exists out : bytes,
    fst (GetFile c filePath w) = inl out /\
    ~ Contains (string_of_list_byte out) /\
    list_byte_of_string
      (regexp.ReplaceAllString chunkSignatureRe (string_of_list_byte out) "")
    = out.
Proof.
  intros Hget Hflag. rewrite GetFile_run. cbv zeta.
  rewrite Hget, Hflag. cbn [fst]. eexists. split; [reflexivity|].
  rewrite string_of_list_byte_of_string. split.
  - apply (stripMore.Stripped_no_match
             (string_of_list_byte (minio.delivered reader))).
    apply stripFacts.ReplaceAllString_Stripped.
  - now rewrite stripMore.ReplaceAllString_idempotent.
Qed.

(** X6: [GetFile] never returns more bytes than the reader delivered,
    and when it returns as many it returns those very bytes. *)
Theorem GetFile_never_lengthens
    (c : Context) (filePath : string) (w : World S V)
    (reader : minio.Object) (s' : S) :
  GetObject (minioClient (self w)) c (bucketName (self w)) filePath
            minio.GetObjectOptions0 (store w) = (inl reader, s') ->
  exists out : bytes,
    fst (GetFile c filePath w) = inl out /\
    List.length out <= List.length (minio.delivered reader) /\
    (List.length out = List.length (minio.delivered reader) ->
     out = minio.delivered reader).
Proof.
  intros Hget. rewrite GetFile_run. cbv zeta. rewrite Hget. cbn [fst].
  eexists. split; [reflexivity|].
  destruct (disableMultipart (self w)); [|auto].
  set (s := string_of_list_byte (minio.delivered reader)).
  pose proof (stripFacts.ReplaceAllString_Stripped s) as Hs.
  destruct (stripMore.Stripped_length _ _ Hs) as [Hle Hlt].
  rewrite stripMore.length_list_byte_of_string.
  unfold s in Hle, Hlt. rewrite stripMore.length_string_of_list_byte in Hle, Hlt.
  split; [exact Hle|]. intros Heq.
  destruct (regexp.find chunkSignatureRe s) as [[b a]|] eqn:F.
  - exfalso. apply stripFacts.find_some in F as (m & Hm & Hsplit & _).
    assert (Hc : Contains s) by (exists b, m, a; auto).
    apply Hlt in Hc. fold s in Hc. lia.
  - unfold regexp.ReplaceAllString. simpl. rewrite F.
    apply list_byte_of_string_of_list_byte.
Qed.

(** X7: bytes without a semicolon are returned as they are, whatever
    [disableMultipart] is. *)
Theorem GetFile_without_semicolon
    (c : Context) (filePath : string) (w : World S V)
    (reader : minio.Object) (s' : S) :
  GetObject (minioClient (self w)) c (bucketName (self w)) filePath
            minio.GetObjectOptions0 (store w) = (inl reader, s') ->
  ~ In semicolon (minio.delivered reader) ->
  fst (GetFile c filePath w) = inl (minio.delivered reader).
Proof.
  intros Hget Hsemi. rewrite GetFile_run. cbv zeta. rewrite Hget. cbn [fst].
  destruct (disableMultipart (self w)); [|reflexivity].
  rewrite strip_no_match; [reflexivity|].
  intros H. now apply Hsemi, stripMore.Contains_semicolon.
Qed.

(** X8: whatever the client and the codec answer, a method makes at most
    one call to the client, in the adapter's bucket and with the path it
    was given: a put for [AddFile], a delete for [DeleteFile], a get for
    [GetFile] and [GetFromYamlFile], a put of the marshalled bytes for
    [AddAsYamlFile] when the marshalling succeeded and nothing
    otherwise, and nothing for [GetPipelineKey]. *)
Theorem one_client_call
    (c : Context) (file : bytes) (v o : V) (p : string) (w : World S V) :
  let m := self w in
  storeCalls (snd (AddFile c file p w))
  = (storeCalls w ++ [putEvent m c file p])%list /\
  storeCalls (snd (DeleteFile c p w))
  = (storeCalls w ++ [EvDeleteObject c (bucketName m) p])%list /\
  storeCalls (snd (GetFile c p w))
  = (storeCalls w ++ [getEvent m c p])%list /\
  storeCalls (snd (GetFromYamlFile yaml c o p w))
  = (storeCalls w ++ [getEvent m c p])%list /\
  storeCalls (snd (AddAsYamlFile yaml c v p w))
  = (storeCalls w ++ match Marshal yaml v with
                     | inl data => [putEvent m c data p]
                     | inr _ => []
                     end)%list /\
  storeCalls (snd (GetPipelineKey p w)) = storeCalls w.
Proof.
  cbv zeta. rewrite AddFile_run, DeleteFile_run, GetFile_run,
    GetFromYamlFile_run, AddAsYamlFile_run, GetPipelineKey_run.
  rewrite GetFile_run. cbv zeta. unfold storeCalls, after.
  repeat split; cbn [snd trace]; try (rewrite filter_app; reflexivity).
  - destruct (fst (GetObject _ _ _ _ _ _)) as [data|err]; cbn [snd trace].
    + destruct (Unmarshal yaml _ o) as [o' err]. cbn [snd trace].
      rewrite !filter_app. simpl. now rewrite app_nil_r.
    + rewrite filter_app. reflexivity.
  - destruct (Marshal yaml v) as [data|err].
    + rewrite AddFile_run. cbv zeta. unfold after. cbn [snd trace self store].
      rewrite !filter_app. simpl. now rewrite app_nil_r.
    + cbn [snd trace]. rewrite filter_app. reflexivity.
Qed.

(** X9: the base folder takes no part in the five methods that read and
    write files: with another base folder they return the same result,
    leave the same store and make the same calls. *)
Theorem baseFolder_not_applied
    (base : string) (c : Context) (file : bytes) (v o : V) (p : string)
    (w : World S V) :
  let w' := withBaseFolder base w in
  let same {A : Type} (op : M S V A) :=
    fst (op w') = fst (op w) /\ store (snd (op w')) = store (snd (op w)) /\
    trace (snd (op w')) = trace (snd (op w)) in
  same (AddFile c file p) /\ same (DeleteFile c p) /\ same (GetFile c p) /\
  same (AddAsYamlFile yaml c v p) /\ same (GetFromYamlFile yaml c o p).
Proof.
  cbv zeta.
  assert (Ha : forall data (w0 : World S V),
             fst (AddFile c data p (withBaseFolder base w0))
             = fst (AddFile c data p w0) /\
             store (snd (AddFile c data p (withBaseFolder base w0)))
             = store (snd (AddFile c data p w0)) /\
             trace (snd (AddFile c data p (withBaseFolder base w0)))
             = trace (snd (AddFile c data p w0)))
    by (intros; rewrite !AddFile_run; repeat split).
  assert (Hg : fst (GetFile c p (withBaseFolder base w)) = fst (GetFile c p w) /\
               store (snd (GetFile c p (withBaseFolder base w)))
               = store (snd (GetFile c p w)) /\
               trace (snd (GetFile c p (withBaseFolder base w)))
               = trace (snd (GetFile c p w)))
    by (rewrite !GetFile_run; repeat split).
  split; [apply Ha|]. split; [rewrite !DeleteFile_run; repeat split|].
  split; [exact Hg|]. split.
  - rewrite !AddAsYamlFile_run. cbv zeta.
    destruct (Marshal yaml v) as [data|err]; [|repeat split].
    destruct (Ha data (after w (EvMarshal v) (store w))) as (H1 & H2 & H3).
    change (after (withBaseFolder base w) (EvMarshal v)
                  (store (withBaseFolder base w)))
      with (withBaseFolder base (after w (EvMarshal v) (store w))).
    destruct (AddFile c data p (withBaseFolder base _)) as [e1 w1].
    destruct (AddFile c data p (after w _ _)) as [e2 w2].
    cbn [fst snd] in *. subst e1. auto.
  - rewrite !GetFromYamlFile_run. destruct Hg as (H1 & H2 & H3).
    destruct (GetFile c p (withBaseFolder base w)) as [r1 w1].
    destruct (GetFile c p w) as [r2 w2]. cbn [fst snd] in *. subst r1.
    destruct r2 as [data|err]; [|auto].
    destruct (Unmarshal yaml data o) as [o' err]. unfold after.
    cbn [fst snd store trace]. rewrite H2, H3. auto.
Qed.

(** X10: when the marshalling succeeds and the put fails,
    [AddAsYamlFile] returns the error of [AddFile] wrapped with the
    message of the yaml file; the calls made are the marshalling and the
    put of the marshalled bytes, and nothing after them. *)
Theorem AddAsYamlFile_put_failure
    (c : Context) (v : V) (data : bytes) (filePath : string) (w : World S V)
    (cause : error) (s' : S) :
  Marshal yaml v = inl data ->
  PutObject (minioClient (self w)) c (bucketName (self w)) filePath data
            (if disableMultipart (self w) then Z.of_nat (List.length data)
             else (-1)%Z)
            {| minio.ContentType := "application/octet-stream" |} (store w)
  = (Some cause, s') ->
  AddAsYamlFile yaml c v filePath w
  = (Some (Wrap (NewInternalServerError cause "Failed to store file %v"
                                        [ArgString filePath])
                "Failed to add a yaml file"),
     after (after w (EvMarshal v) (store w))
           (putEvent (self w) c data filePath) s').
Proof.
  intros Hm Hput. rewrite AddAsYamlFile_run. cbv zeta. rewrite Hm.
  rewrite AddFile_run. cbv zeta. cbn [self store after] in *.
  rewrite Hput. reflexivity.
Qed.

(** X11: on a store that gives back what was put and with
    [disableMultipart] set, a blob that has a substring matching the
    chunk-signature pattern does not come back: [AddFile] followed by
    [GetFile] returns the blob stripped, which is shorter. *)
Theorem round_trip_strips_signatures
    (c c' : Context) (b : bytes) (p : string) (w : World S V) :
  Faithful (minioClient (self w)) ->
  disableMultipart (self w) = true ->
  Contains (string_of_list_byte b) ->
  exists w1 w2 out,
    AddFile c b p w = (None, w1) /\ GetFile c' p w1 = (inl out, w2) /\
    Stripped (string_of_list_byte b) (string_of_list_byte out) /\
    List.length out < List.length b.
Proof.
  intros Hf Hflag Hb.
  destruct (put_then_get_stripped c c' b p w Hf) as (w1 & w2 & H1 & H2).
  rewrite Hflag in H2. do 3 eexists. split; [exact H1|]. split; [exact H2|].
  rewrite string_of_list_byte_of_string.
  pose proof (stripFacts.ReplaceAllString_Stripped (string_of_list_byte b)) as Hs.
  split; [exact Hs|].
  destruct (stripMore.Stripped_length _ _ Hs) as [_ Hlt].
  rewrite stripMore.length_list_byte_of_string.
  rewrite <- (stripMore.length_string_of_list_byte b). auto.
Qed.

End AdapterMore.

(** ** The further properties on the example worlds *)

Lemma GetPipelineKey_of_elements_witness :
  fst (GetPipelineKey (joinElements ["abc"]) (demo.fresh "pipelines/v2" false))
  = joinElements (["pipelines"; "v2"] ++ ["abc"]).
Proof.
  apply GetPipelineKey_of_elements; try reflexivity; try discriminate;
    repeat (apply Forall_cons || apply Forall_nil); repeat split; discriminate.
Defined.

Lemma GetPipelineKey_injective_witness :
  joinElements ["run"; "abc"] = joinElements ["run"; "abc"].
Proof.
  apply (GetPipelineKey_injective ["run"; "abc"] ["run"; "abc"]
           (demo.fresh "../pipelines/" false));
    try reflexivity; try discriminate;
    repeat (apply Forall_cons || apply Forall_nil); repeat split; discriminate.
Defined.

Example keyFolder_examples :
  keyFolder "" = "" /\ keyFolder "pipelines" = "pipelines/" /\
  keyFolder "./pipelines//v2/" = "pipelines/v2/" /\ keyFolder "/" = "/" /\
  keyFolder "a/.." = "" /\ keyFolder "../x" = "../x/" /\
  keyFolder "/../a" = "/a/".
Proof. repeat split; reflexivity. Qed.

Lemma GetPipelineKey_under_folder_witness :
  fst (GetPipelineKey (joinElements ["run"; "abc"])
                      (demo.fresh "./pipelines//v2/" false))
  = keyFolder "./pipelines//v2/" ++ joinElements ["run"; "abc"] /\
  (keyFolder "./pipelines//v2/" = "" \/
   Str.last (keyFolder "./pipelines//v2/") = Some "/"%char).
Proof.
  apply (GetPipelineKey_under_folder ["run"; "abc"]
           (demo.fresh "./pipelines//v2/" false));
    try discriminate;
    repeat (apply Forall_cons || apply Forall_nil); repeat split; discriminate.
Defined.

Lemma GetFile_result_has_no_signature_witness :
  exists out : bytes,
    fst (GetFile (ctx 0) "pipelines/p1"
                 (demo.holding true "pipelines/p1" demo.signedPayload))
    = inl out /\
    ~ Contains (string_of_list_byte out) /\
    list_byte_of_string
      (regexp.ReplaceAllString chunkSignatureRe (string_of_list_byte out) "")
    = out.
Proof.
  exact (GetFile_result_has_no_signature
           (ctx 0) "pipelines/p1"
           (demo.holding true "pipelines/p1" demo.signedPayload)
           demo.signedReader
           (store (demo.holding true "pipelines/p1" demo.signedPayload))
           eq_refl eq_refl).
Defined.

Lemma GetFile_never_lengthens_witness :
  exists out : bytes,
    fst (GetFile (ctx 0) "pipelines/p1"
                 (demo.holding true "pipelines/p1" demo.signedPayload))
    = inl out /\
    List.length out <= List.length (minio.delivered demo.signedReader) /\
    (List.length out = List.length (minio.delivered demo.signedReader) ->
     out = minio.delivered demo.signedReader).
Proof.
  exact (GetFile_never_lengthens
           (ctx 0) "pipelines/p1"
           (demo.holding true "pipelines/p1" demo.signedPayload)
           demo.signedReader
           (store (demo.holding true "pipelines/p1" demo.signedPayload))
           eq_refl).
Defined.

Lemma GetFile_without_semicolon_witness :
  fst (GetFile (ctx 0) "pipelines/p1"
               (demo.holding true "pipelines/p1" "name: abc"))
  = inl (list_byte_of_string "name: abc").
Proof.
  apply (GetFile_without_semicolon
           (ctx 0) "pipelines/p1"
           (demo.holding true "pipelines/p1" "name: abc")
           {| minio.delivered := list_byte_of_string "name: abc";
              minio.failure := None |}
           (store (demo.holding true "pipelines/p1" "name: abc"))).
  - reflexivity.
  - intros H. simpl in H.
    repeat (destruct H as [H | H]; [discriminate H|]). exact H.
Defined.

Lemma AddAsYamlFile_put_failure_witness :
  AddAsYamlFile lineCodec.codec (ctx 0) "abc" "pipelines/p1"
                (demo.unreachable true)
  = (Some (Wrap (NewInternalServerError memory.refused "Failed to store file %v"
                                        [ArgString "pipelines/p1"])
                "Failed to add a yaml file"),
     after (after (demo.unreachable true) (EvMarshal "abc") tt)
           (putEvent (self (demo.unreachable true)) (ctx 0)
                     (list_byte_of_string ("abc" ++ String lineCodec.lf ""))
                     "pipelines/p1") tt).
Proof.
  apply (AddAsYamlFile_put_failure lineCodec.codec (ctx 0) "abc"
           (list_byte_of_string ("abc" ++ String lineCodec.lf ""))
           "pipelines/p1" (demo.unreachable true) memory.refused tt);
    reflexivity.
Defined.

Lemma round_trip_strips_signatures_witness :
  exists w1 w2 out,
    AddFile (ctx 0) (list_byte_of_string demo.signedPayload) "pipelines/p1"
            (demo.fresh "pipelines" true) = (None, w1) /\
    GetFile (ctx 1) "pipelines/p1" w1 = (inl out, w2) /\
    Stripped (string_of_list_byte (list_byte_of_string demo.signedPayload))
             (string_of_list_byte out) /\
    List.length out < List.length (list_byte_of_string demo.signedPayload).
Proof.
  apply round_trip_strips_signatures.
  - exact memory_client_Faithful.
  - reflexivity.
  - exists "xx ", "abc123;chunk-signature=def456", " yy". split; [|reflexivity].
    exists "abc123", "def456".
    split; [split; [discriminate | reflexivity]|].
    split; [split; [discriminate | reflexivity] | reflexivity].
Defined.

Example standardClean_cleantests :
  forallb (fun t => String.eqb (standardClean (fst t)) (snd t)) cleantests = true.
Proof. reflexivity. Qed.

Example standardJoin_jointests :
  forallb (fun t => String.eqb (standardJoin (fst t)) (snd t)) jointests = true.
Proof. reflexivity. Qed.

(* ================================================================== *)
(** ** [path.Join] against the path-join semantics *)

Module joinFacts.
Import path Str StrFacts pathFacts keyFacts.

(** *** The elements of a path *)

Lemma splitPath_slash (p : string) :
  splitPath (String slash p) = "" :: splitPath p.
Proof. unfold splitPath. simpl. destruct (splitFirst p). reflexivity. Qed.

Lemma splitPath_boundary (r : string) :
  endsElement r = true -> splitPath r = "" :: tl (splitPath r).
Proof.
  destruct r as [|c r]; [reflexivity|]. simpl. intros H.
  apply Ascii.eqb_eq in H. subst c. now rewrite splitPath_slash.
Qed.

Lemma splitPath_element (e r : string) :
  noSlash e = true -> endsElement r = true ->
  splitPath (e ++ r) = e :: tl (splitPath r).
Proof.
  intros He Hr. induction e as [|c e IH]; [now apply splitPath_boundary|].
  simpl in He. apply andb_true_iff in He as [Hc He].
  apply negb_true_iff in Hc. specialize (IH He).
  unfold splitPath in *. simpl. unfold slash in Hc. rewrite Hc.
  destruct (splitFirst (e ++ r)) as [x xs]. now injection IH as -> ->.
Qed.

(** *** One element *)

Lemma resolveStep_plain (rooted : bool) (kept : list string) (e : string) :
  plainElement e -> resolveStep rooted kept e = e :: kept.
Proof.
  intros (Hne & _ & Hdot & Hdotdot). unfold resolveStep.
  destruct (String.eqb_spec e ""); [congruence|].
  destruct (String.eqb_spec e "."); [congruence|].
  destruct (String.eqb_spec e ".."); [congruence | reflexivity].
Qed.

Lemma fold_boundary (rooted : bool) (kept : list string) (r : string) :
  endsElement r = true ->
  fold_left (resolveStep rooted) (splitPath r) kept
  = fold_left (resolveStep rooted) (tl (splitPath r)) kept.
Proof. intros H. now rewrite (splitPath_boundary r H) at 1. Qed.

(** The elements of a path that starts with an element [e]: [e] and then
    those of the rest. *)
Lemma fold_element (rooted : bool) (kept : list string) (e r : string) :
  noSlash e = true -> endsElement r = true ->
  fold_left (resolveStep rooted) (splitPath (e ++ r)) kept
  = fold_left (resolveStep rooted) (splitPath r) (resolveStep rooted kept e).
Proof.
  intros He Hr. rewrite (splitPath_element e r He Hr).
  now rewrite (fold_boundary rooted _ r Hr).
Qed.

(** *** The buffer of the loop and the elements kept *)

Lemma joinElements_snoc (l : list string) (e : string) :
  joinElements (l ++ [e])
  = match l with
    | [] => e
    | _ :: _ => joinElements l ++ "/" ++ e
    end.
Proof.
  destruct l as [|x l]; [reflexivity|].
  now rewrite (joinElements_app (x :: l) [e]) by discriminate.
Qed.

Lemma joinElements_eq_nil (l : list string) :
  Forall (fun e => e <> "") l -> joinElements l = "" -> l = [].
Proof.
  intros Hl H. destruct l as [|x l]; [reflexivity|]. exfalso.
  inversion Hl as [|? ? Hx _]; subst.
  destruct x; [congruence|]. destruct l; discriminate H.
Qed.

Lemma kept_nonempty (k : nat) (es : list string) :
  Forall plainElement es -> Forall (fun e => e <> "") (keptElements k es).
Proof.
  intros Hes. apply Forall_app. split.
  - apply Forall_forall. intros x Hx. apply repeat_spec in Hx. subst.
    discriminate.
  - eapply Forall_impl; [|exact Hes]. intros e He. apply He.
Qed.

Lemma keptElements_snoc (k : nat) (es : list string) (e : string) :
  keptElements k (es ++ [e]) = (keptElements k es ++ [e])%list.
Proof. unfold keptElements. now rewrite app_assoc. Qed.

Lemma length_nonempty (s : string) : s <> "" -> 0 < String.length s.
Proof. destruct s; [congruence | simpl; lia]. Qed.

(** Appending a real element to the buffer. *)
Lemma bufferOf_snoc (rooted : bool) (k : nat) (es : list string) (e : string) :
  Forall plainElement es ->
  bufferOf rooted k (es ++ [e]) = addSlash rooted (bufferOf rooted k es) ++ e.
Proof.
  intros Hes. unfold bufferOf. rewrite keptElements_snoc, joinElements_snoc.
  pose proof (kept_nonempty k es Hes) as Hne.
  destruct (keptElements k es) as [|x l] eqn:E.
  - change (joinElements []) with "". destruct rooted; reflexivity.
  - assert (Hj : joinElements (x :: l) <> "")
      by (intros H; apply (joinElements_eq_nil _ Hne) in H; discriminate).
    apply length_nonempty in Hj.
    unfold addSlash. rewrite length_append.
    destruct rooted; cbn [andb negb orb].
    + assert (H1 : (String.length "/" + String.length (joinElements (x :: l))
                    =? 1)%nat = false) by (apply Nat.eqb_neq; simpl; lia).
      rewrite H1. cbn [negb orb]. now rewrite !append_assoc.
    + assert (H0 : (String.length "" + String.length (joinElements (x :: l))
                    =? 0)%nat = false) by (apply Nat.eqb_neq; simpl; lia).
      rewrite H0. cbn [negb orb]. now rewrite !append_assoc.
Qed.

Lemma mark_le (rooted : bool) (k : nat) (es : list string) :
  markOf rooted k <= String.length (bufferOf rooted k es).
Proof.
  unfold markOf, bufferOf, keptElements. destruct rooted; [simpl; lia|].
  simpl append. destruct es as [|e es]; [now rewrite app_nil_r|].
  destruct k as [|k]; [simpl; lia|].
  rewrite joinElements_app by discriminate. rewrite length_append. lia.
Qed.

(** The mark is below the end of the buffer exactly when a real element
    is kept. *)
Lemma mark_lt (rooted : bool) (k : nat) (es : list string) :
  Forall plainElement es -> (rooted = true -> k = 0) ->
  (markOf rooted k <? String.length (bufferOf rooted k es))%nat
  = match es with [] => false | _ :: _ => true end.
Proof.
  intros Hes Hk. unfold markOf, bufferOf, keptElements.
  destruct es as [|e es].
  - rewrite app_nil_r. destruct rooted.
    + rewrite (Hk eq_refl). reflexivity.
    + apply Nat.ltb_irrefl.
  - assert (Hj : 0 < String.length (joinElements (e :: es))).
    { apply length_nonempty. intros H.
      apply (joinElements_eq_nil _ (kept_nonempty 0 _ Hes)) in H.
      discriminate. }
    apply Nat.ltb_lt. destruct rooted.
    + rewrite (Hk eq_refl). simpl. lia.
    + simpl append. destruct k as [|k]; [simpl; lia|].
      rewrite joinElements_app by discriminate. rewrite !length_append.
      simpl. lia.
Qed.

(** Appending a [..] element to a buffer without real element. *)
Lemma bufferOf_dotdot (k : nat) :
  let out := bufferOf false k [] in
  (if (0 <? String.length out)%nat then out ++ "/" else out) ++ ".."
  = bufferOf false (S k) [] /\
  String.length (bufferOf false (S k) []) = markOf false (S k).
Proof.
  cbv zeta. unfold bufferOf, markOf, keptElements. rewrite !app_nil_r.
  simpl append. split; [|reflexivity].
  rewrite repeat_cons, joinElements_snoc.
  destruct k as [|k]; [reflexivity|].
  assert (Hj : 0 < String.length (joinElements (repeat ".." (S k))))
    by (simpl; destruct (repeat ".." k); simpl; lia).
  apply Nat.ltb_lt in Hj. rewrite Hj.
  simpl repeat. now rewrite append_assoc.
Qed.

(** *** Going back over the last element *)

Lemma get_append_right (x y : string) (i : nat) :
  String.get (String.length x + i) (x ++ y) = String.get i y.
Proof. induction x as [|c x IH]; [reflexivity | exact IH]. Qed.

Lemma backtrack_down (out : string) (dotdot base : nat) :
  dotdot <= base ->
  base = dotdot \/ String.get base out = Some slash ->
  forall n,
    (forall i c, 1 <= i <= n -> String.get (base + i) out = Some c ->
                 Ascii.eqb c slash = false) ->
    backtrack out dotdot (base + n) = base.
Proof.
  intros Hdd Hbase. induction n as [|n IH]; intros Hn.
  - rewrite Nat.add_0_r. destruct base as [|b]; [reflexivity|].
    cbn [backtrack]. destruct Hbase as [-> | ->].
    + now rewrite Nat.ltb_irrefl.
    + rewrite Ascii.eqb_refl. now rewrite andb_false_r.
  - rewrite Nat.add_succ_r. cbn [backtrack].
    assert (Hlt : (dotdot <? S (base + n))%nat = true) by (apply Nat.ltb_lt; lia).
    rewrite Hlt. cbn [andb].
    destruct (String.get (S (base + n)) out) as [c|] eqn:Hg.
    + rewrite (Hn (S n) c); [| lia | now rewrite Nat.add_succ_r].
      cbn [negb]. apply IH. intros i c' Hi. apply Hn. lia.
    + cbn [negb]. apply IH. intros i c' Hi. apply Hn. lia.
Qed.

Lemma bufferOf_last (rooted : bool) (k : nat) (es : list string) (e : string) :
  exists s,
    bufferOf rooted k (es ++ [e]) = bufferOf rooted k es ++ s ++ e /\
    ((s = "" /\ String.length (bufferOf rooted k es) = markOf rooted k) \/
     s = "/").
Proof.
  unfold bufferOf. rewrite keptElements_snoc, joinElements_snoc.
  destruct (keptElements k es) as [|x l] eqn:E.
  - exists "". change (joinElements []) with "". rewrite append_nil_r.
    split; [reflexivity|]. left. split; [reflexivity|].
    unfold markOf. destruct rooted; [reflexivity|].
    unfold keptElements in E. apply app_eq_nil in E as [-> _]. reflexivity.
  - exists "/". split; [now rewrite !append_assoc | now right].
Qed.

Lemma buffer_backtrack (rooted : bool) (k : nat) (es : list string) (e : string) :
  plainElement e ->
  let out := bufferOf rooted k (es ++ [e]) in
  take (backtrack out (markOf rooted k) (String.length out - 1)) out
  = bufferOf rooted k es.
Proof.
  intros He. cbv zeta.
  destruct He as (Hne & Hs & _).
  pose proof (length_nonempty e Hne) as Hlen.
  pose proof (mark_le rooted k es) as Hle.
  destruct (bufferOf_last rooted k es e) as (s & -> & Hcase).
  remember (bufferOf rooted k es) as X eqn:EX. clear EX.
  assert (Hb : backtrack (X ++ s ++ e) (markOf rooted k)
                         (String.length (X ++ s ++ e) - 1) = String.length X).
  { destruct Hcase as [[-> HX] | ->].
    - replace (String.length (X ++ "" ++ e) - 1)
        with (String.length X + (String.length e - 1))
        by (rewrite !length_append; simpl; lia).
      apply backtrack_down; [lia | left; lia |].
      intros i c Hi Hg. rewrite get_append_right in Hg. simpl in Hg.
      exact (noSlash_get e Hs i c Hg).
    - replace (String.length (X ++ "/" ++ e) - 1)
        with (String.length X + String.length e)
        by (rewrite !length_append; simpl; lia).
      apply backtrack_down; [lia | right |].
      + rewrite <- (Nat.add_0_r (String.length X)).
        now rewrite get_append_right.
      + intros i c Hi Hg. rewrite get_append_right in Hg.
        destruct i as [|i]; [lia|]. simpl in Hg.
        exact (noSlash_get e Hs i c Hg). }
  rewrite Hb. apply take_length_append.
Qed.

(** *** The loop of [Clean], element by element *)

Lemma copyElement_spec (rest : string) :
  rest = fst (copyElement rest) ++ snd (copyElement rest) /\
  noSlash (fst (copyElement rest)) = true /\
  endsElement (snd (copyElement rest)) = true.
Proof.
  induction rest as [|c rest IH]; [repeat split|]. simpl.
  destruct (Ascii.eqb c slash) eqn:Hc; [repeat split; simpl; assumption|].
  destruct (copyElement rest) as [e r]. simpl in *.
  destruct IH as (H1 & H2 & H3). split; [now rewrite <- H1|].
  split; [|assumption]. simpl. now rewrite Hc, H2.
Qed.

(** The element that the default case copies is a plain one. *)
Lemma default_element (c : ascii) (r1 : string) :
  Ascii.eqb c slash = false ->
  Ascii.eqb c dot && endsElement r1 = false ->
  isDotDot c r1 = false ->
  plainElement (fst (copyElement (String c r1))).
Proof.
  intros Hc Hdot Hdd.
  destruct (copyElement_spec r1) as (Hr & Hs & He).
  simpl. rewrite Hc. destruct (copyElement r1) as [e r']. simpl in *.
  split; [discriminate|]. split; [simpl; now rewrite Hc, Hs|]. split.
  - intros [= -> ->]. simpl in Hr. subst r1. rewrite He in Hdot. discriminate.
  - intros [= -> ->]. subst r1. simpl in Hdd. rewrite He in Hdd. discriminate.
Qed.

Lemma rev_kept_snoc (k : nat) (es : list string) (e : string) :
  rev (keptElements k (es ++ [e])) = e :: rev (keptElements k es).
Proof. rewrite keptElements_snoc. apply rev_unit. Qed.

Lemma rev_kept_dots (k : nat) : rev (keptElements k []) = repeat ".." k.
Proof. unfold keptElements. rewrite app_nil_r. apply rev_repeat. Qed.

Lemma resolveStep_skip (rooted : bool) (kept : list string) :
  resolveStep rooted kept "" = kept /\ resolveStep rooted kept "." = kept.
Proof. split; reflexivity. Qed.

(** What the loop of [Clean] makes of the rest of the path, from a
    buffer that holds [k] elements [..] and the plain elements [es]: the
    buffer of the elements that the rules keep. *)
Lemma cleanLoop_resolve (rooted : bool) :
  forall fuel rest k es,
    Forall plainElement es -> (rooted = true -> k = 0) ->
    String.length rest <= fuel ->
    exists k' es',
      Forall plainElement es' /\ (rooted = true -> k' = 0) /\
      cleanLoop fuel rooted rest (bufferOf rooted k es) (markOf rooted k)
      = bufferOf rooted k' es' /\
      fold_left (resolveStep rooted) (splitPath rest) (rev (keptElements k es))
      = rev (keptElements k' es').
Proof.
  induction fuel as [|fuel IH]; intros rest k es Hes Hk Hfuel.
  - destruct rest; [|simpl in Hfuel; lia]. exists k, es. repeat split; auto.
  - destruct rest as [|c r1]; [exists k, es; repeat split; auto|].
    simpl in Hfuel. cbn [cleanLoop].
    destruct (Ascii.eqb c slash) eqn:Hc.
    { (* empty path element *)
      apply Ascii.eqb_eq in Hc. subst c. rewrite splitPath_slash.
      cbn [fold_left]. rewrite (proj1 (resolveStep_skip rooted _)).
      apply IH; auto; lia. }
    destruct (Ascii.eqb c dot && endsElement r1) eqn:Hdot.
    { (* . element *)
      apply andb_true_iff in Hdot as [Hd Hr1].
      apply Ascii.eqb_eq in Hd. subst c.
      change (String dot r1) with ("." ++ r1).
      rewrite (fold_element rooted _ "." r1 eq_refl Hr1).
      rewrite (proj2 (resolveStep_skip rooted _)).
      apply IH; auto; lia. }
    destruct (isDotDot c r1) eqn:Hdd.
    { (* .. element *)
      destruct r1 as [|c' r2]; [discriminate|]. simpl in Hdd, Hfuel.
      apply andb_true_iff in Hdd as [Hdd Hr2].
      apply andb_true_iff in Hdd as [Hd Hd'].
      apply Ascii.eqb_eq in Hd, Hd'. subst c c'.
      change (String dot (String dot r2)) with (".." ++ r2).
      rewrite (fold_element rooted _ ".." r2 eq_refl Hr2).
      cbn [tail]. rewrite (mark_lt rooted k es Hes Hk).
      destruct es as [|x es0] using rev_ind.
      - (* no real element to remove *)
        rewrite rev_kept_dots. destruct rooted; cbn [negb].
        + rewrite (Hk eq_refl) in *. simpl repeat.
          change (resolveStep true [] "..") with (@nil string).
          change (@nil string) with (rev (keptElements 0 [])).
          apply IH; auto; lia.
        + destruct (bufferOf_dotdot k) as [Hbuf Hmark]. cbv zeta in Hbuf.
          rewrite Hbuf, Hmark.
          assert (Hstep : resolveStep false (repeat ".." k) ".."
                          = rev (keptElements (S k) [])).
          { rewrite rev_kept_dots. destruct k; reflexivity. }
          rewrite Hstep. apply IH; auto; [discriminate | lia].
      - (* the last real element is removed *)
        clear IHes0. apply Forall_app in Hes as [Hes0 Hx].
        inversion Hx as [|? ? Hpx _]; subst.
        assert (Hcan : match (es0 ++ [x])%list with
                       | [] => false | _ :: _ => true end = true)
          by (destruct es0; reflexivity).
        rewrite Hcan, (buffer_backtrack rooted k es0 x Hpx), rev_kept_snoc.
        assert (Hstep : resolveStep rooted (x :: rev (keptElements k es0)) ".."
                        = rev (keptElements k es0)).
        { unfold resolveStep. cbn [String.eqb orb].
          destruct Hpx as (_ & _ & _ & Hddx).
          destruct (String.eqb_spec x ".."); [congruence | reflexivity]. }
        rewrite Hstep. apply IH; auto; lia. }
    (* real path element *)
    pose proof (default_element c r1 Hc Hdot Hdd) as Hpe.
    destruct (copyElement_spec (String c r1)) as (Hrest & Hs & Hr').
    pose proof (copyElement_shorter c r1 Hc) as Hshort.
    destruct (copyElement (String c r1)) as [e r']. cbn [fst snd] in *.
    rewrite Hrest, (fold_element rooted _ e r' Hs Hr').
    rewrite (resolveStep_plain rooted _ e Hpe).
    rewrite <- (bufferOf_snoc rooted k es e Hes), <- rev_kept_snoc.
    apply IH; [| assumption | lia].
    apply Forall_app. split; [assumption | now constructor].
Qed.

(** *** [Clean] and [Join] follow the rules *)

Lemma Clean_standard (p : string) : Clean p = standardClean p.
Proof.
  destruct p as [|c r1]; [reflexivity|].
  unfold Clean, standardClean. cbv zeta.
  change (String.eqb (String c r1) "") with false. cbv iota.
  change (startsWithSlash (String c r1)) with (Ascii.eqb c slash).
  destruct (Ascii.eqb c slash) eqn:Hc.
  - apply Ascii.eqb_eq in Hc. subst c. rewrite splitPath_slash.
    cbn [fold_left]. change (resolveStep true [] "") with (@nil string).
    destruct (cleanLoop_resolve true (String.length (String slash r1)) r1 0 []
                (Forall_nil _) (fun _ => eq_refl)) as (k' & es' & _ & _ & Hloop & Hfold);
      [simpl; lia|].
    change (bufferOf true 0 []) with "/" in Hloop.
    change (markOf true 0) with 1 in Hloop.
    change (rev (keptElements 0 [])) with (@nil string) in Hfold.
    rewrite Hloop, Hfold, rev_involutive. reflexivity.
  - destruct (cleanLoop_resolve false (String.length (String c r1))
                (String c r1) 0 [] (Forall_nil _) (fun H => eq_refl))
      as (k' & es' & Hes' & _ & Hloop & Hfold); [lia|].
    change (bufferOf false 0 []) with "" in Hloop.
    change (markOf false 0) with 0 in Hloop.
    change (rev (keptElements 0 [])) with (@nil string) in Hfold.
    rewrite Hloop, Hfold, rev_involutive.
    unfold bufferOf. cbn [append].
    change (String.concat "/" (keptElements k' es'))
      with (joinElements (keptElements k' es')).
    pose proof (joinElements_eq_nil _ (kept_nonempty k' es' Hes')) as Hnil.
    destruct (keptElements k' es') as [|x l] eqn:E; [reflexivity|].
    destruct (joinElements (x :: l)) as [|y j] eqn:Ej;
      [specialize (Hnil eq_refl); discriminate | reflexivity].
Qed.

Lemma Join_standard (base id : string) :
  Join [base; id] = standardJoin [base; id].
Proof.
  rewrite Join_two. unfold standardJoin. cbn [filter].
  destruct base as [|c base]; destruct id as [|x id];
    cbn [String.eqb negb]; cbv iota.
  - reflexivity.
  - apply Clean_standard.
  - change (String.concat "/" [String c base]) with (String c base).
    rewrite <- Clean_standard.
    change (String c base ++ "/" ++ "") with (String c base ++ "/").
    apply Clean_trailing_slash. discriminate.
  - rewrite Clean_standard. reflexivity.
Qed.

End joinFacts.

(* ================================================================== *)
(** ** The pipeline key and the path-join rules *)

Section PipelineKeyJoin.

Context {S V : Type}.

(** C5: [GetPipelineKey] returns the base folder joined with the
    pipeline id under the standard path-join rules ([standardJoin]:
    empty elements ignored, the elements joined by slashes, multiple
    slashes made one, dot elements removed, a double dot removing the
    element before it, no slash at the end but for the root), which is
    what the code's [path.Join] computes for every base folder and id;
    for example [pipelines/abc] for the base folder [pipelines] and the
    id [abc], and [abc] for the empty base folder.  It leaves the world
    as it is: no call is made and nothing changes. *)
Theorem GetPipelineKey_is_path_join
    (pipelineID : string) (w : World S V)
    (client : MinioClientInterface S) (bucket : string) (flag : bool)
    (s : S) (tr : list (Event V)) :
  GetPipelineKey pipelineID w
  = (standardJoin [baseFolder (self w); pipelineID], w) /\
  path.Join [baseFolder (self w); pipelineID]
  = standardJoin [baseFolder (self w); pipelineID] /\
  fst (GetPipelineKey "abc"
         {| self := NewMinioObjectStore client bucket "pipelines" flag;
            store := s; trace := tr |}) = "pipelines/abc" /\
  fst (GetPipelineKey "abc"
         {| self := NewMinioObjectStore client bucket "" flag;
            store := s; trace := tr |}) = "abc" /\
  fst (GetPipelineKey "./abc//"
         {| self := NewMinioObjectStore client bucket "pipelines/" flag;
            store := s; trace := tr |}) = "pipelines/abc".
Proof.
  split; [|split; [apply joinFacts.Join_standard | repeat split]].
  unfold GetPipelineKey, bind, getSelf, ret.
  now rewrite joinFacts.Join_standard.
Qed.

End PipelineKeyJoin.
